(** * Mail-Server: the POP3 and SMTP sessions and their line reader

    A shallow embedding of [socketbuffer.c], [popd.c] and [smtpd.c].
    Buffers are lists of octets; the C library calls the sessions make are
    modelled on NUL-terminated views of those lists; every place where the
    C code would write outside an array or dereference a null pointer is an
    explicit [Fault] outcome. *)

From Stdlib Require Import ZArith Lia Bool Ascii String.
From Stdlib Require Import DecimalString DecimalPos DecimalZ.
From stdpp Require Import base list.

Local Open Scope Z_scope.

(** ** Octets and the C library *)

Module Libc.

Abbreviation bytes := (list ascii).

Definition lit (s : string) : bytes := list_ascii_of_string s.

Definition NUL : ascii := "000"%char.
Definition CR : ascii := "013"%char.
Definition LF : ascii := "010"%char.
Definition SP : ascii := " "%char.

Definition code (c : ascii) : Z := Z.of_N (N_of_ascii c).

(** [isspace], [isdigit] and [tolower] in the C locale. *)
Definition isspace (c : ascii) : bool :=
  (code c =? 32) || ((9 <=? code c) && (code c <=? 13)).

Definition isdigit (c : ascii) : bool :=
  (48 <=? code c) && (code c <=? 57).

Definition tolower (c : ascii) : ascii :=
  if (65 <=? code c) && (code c <=? 90)
  then ascii_of_N (N_of_ascii c + 32) else c.

Definition toupper (c : ascii) : ascii :=
  if (97 <=? code c) && (code c <=? 122)
  then ascii_of_N (N_of_ascii c - 32) else c.

(** The C string that starts at the head of a buffer: the octets before
    the first zero octet. *)
Fixpoint cstr (b : bytes) : bytes :=
  match b with
  | [] => []
  | c :: b' => if Ascii.eqb c NUL then [] else c :: cstr b'
  end.

Definition strlen (b : bytes) : Z := Z.of_nat (length (cstr b)).

(** [strcasecmp] on two C strings: the difference of the first pair of
    octets that differ after case folding, 0 when the strings end without
    one.  A list that runs out stands for a string that ends there. *)
Fixpoint strcasecmp (a b : bytes) : Z :=
  match a, b with
  | [], [] => 0
  | [], y :: _ => - code (tolower y)
  | x :: _, [] => code (tolower x)
  | x :: a', y :: b' =>
      if code (tolower x) =? code (tolower y)
      then if Ascii.eqb x NUL then 0 else strcasecmp a' b'
      else code (tolower x) - code (tolower y)
  end.

(** Offsets of the first and of the last occurrence of an octet. *)
Fixpoint index_of (c : ascii) (s : bytes) : option nat :=
  match s with
  | [] => None
  | x :: s' => if Ascii.eqb x c then Some 0%nat else S <$> index_of c s'
  end.

Fixpoint rindex_of (c : ascii) (s : bytes) : option nat :=
  match s with
  | [] => None
  | x :: s' =>
      match rindex_of c s' with
      | Some i => Some (S i)
      | None => if Ascii.eqb x c then Some 0%nat else None
      end
  end.

(** [strchr] and [strrchr] as offsets from the start of the string;
    [None] is the null pointer. *)
Definition strchr (s : bytes) (c : ascii) : option nat := index_of c (cstr s).
Definition strrchr (s : bytes) (c : ascii) : option nat := rindex_of c (cstr s).

(** [strcpy] into an array that holds [cap] octets besides the NUL:
    [None] when the source does not fit. *)
Definition strcpy (cap : Z) (src : bytes) : option bytes :=
  if Z.of_nat (length src) <=? cap then Some src else None.

(** [sscanf(str, "%s", ...)]: skip white space, then take the octets up to
    the next white space.  [None] is the call that converts nothing and
    leaves its destination as it was. *)
Fixpoint skip_ws (s : bytes) : bytes :=
  match s with
  | c :: s' => if isspace c then skip_ws s' else s
  | [] => []
  end.

Fixpoint scan_word (s : bytes) : bytes :=
  match s with
  | c :: s' => if isspace c then [] else c :: scan_word s'
  | [] => []
  end.

Definition sscanf_s (str : bytes) : option bytes :=
  match scan_word (skip_ws (cstr str)) with
  | [] => None
  | w => Some w
  end.

(** [sscanf(str, "%<w>s", ...)], the same with a field width. *)
Definition sscanf_ws (w : nat) (str : bytes) : option bytes :=
  match take w (scan_word (skip_ws (cstr str))) with
  | [] => None
  | t => Some t
  end.

(** The first call [strtok(s, "\r")]: skip leading CRs, then return the
    octets up to the next CR; [None] is the null pointer. *)
Fixpoint skip_cr (s : bytes) : bytes :=
  match s with
  | c :: s' => if Ascii.eqb c CR then skip_cr s' else s
  | [] => []
  end.

Fixpoint upto_cr (s : bytes) : bytes :=
  match s with
  | c :: s' => if Ascii.eqb c CR then [] else c :: upto_cr s'
  | [] => []
  end.

Definition strtok_cr (s : bytes) : option bytes :=
  match upto_cr (skip_cr (cstr s)) with
  | [] => None
  | t => Some t
  end.

(** [strstr(s, needle) == s]: the needle is found at offset 0. *)
Fixpoint starts_with (needle s : bytes) : bool :=
  match needle, s with
  | [], _ => true
  | n :: needle', c :: s' => Ascii.eqb n c && starts_with needle' s'
  | _ :: _, [] => false
  end.

Definition strstr_at_start (s needle : bytes) : bool :=
  starts_with needle (cstr s).

(** [memchr(buf, c, n)] over the [n] octets of [buf], as an offset. *)
Definition memchr (buf : bytes) (c : ascii) : option nat := index_of c buf.

(** [sprintf("%d", n)]: signed decimal. *)
Definition sprintf_d (n : Z) : bytes :=
  lit (NilZero.string_of_int (Z.to_int n)).

(** Conversions to [int] as the calls perform them: a [size_t] through the
    cast [(int)size], an [unsigned int] through the [%d] conversion. *)
Definition to_int (n : Z) : Z :=
  let m := n mod 2 ^ 32 in if m <? 2 ^ 31 then m else m - 2 ^ 32.

Definition to_unsigned (n : Z) : Z := n mod 2 ^ 32.

(** [strtol(s, NULL, 10)] on a string of decimal digits, with the
    saturation at [LONG_MAX] of a 64-bit [long]. *)
Definition digit_val (c : ascii) : Z := code c - 48.

Definition LONG_MAX : Z := 2 ^ 63 - 1.

Definition strtol (s : bytes) : Z :=
  Z.min LONG_MAX (fold_left (fun acc c => 10 * acc + digit_val c) s 0).

End Libc.

(** ** socketbuffer.c: the line reader *)

Module SocketBuffer.
Import Libc.

(** What the peer does, in the order [recv] observes it: octets arriving
    in segments, or a failure.  The empty list is the orderly close. *)
Inductive event := Data (bs : bytes) | Err.

Abbreviation socket := (list event).

(** [recv(fd, p, len, 0)] for [len > 0]: the return value, the octets
    stored at [p], and the socket afterwards. *)
Fixpoint recv (sock : socket) (len : nat) : Z * bytes * socket :=
  match sock with
  | [] => (0, [], [])
  | Err :: rest => (-1, [], rest)
  | Data [] :: rest => recv rest len
  | Data bs :: rest =>
      (Z.of_nat (length (take len bs)), take len bs,
       match drop len bs with [] => rest | more => Data more :: rest end)
  end.

(** [buf] holds the [avail_data] octets that are buffered. *)
Record socket_buffer := mk_sb { max_bytes : nat; buf : bytes }.

Definition avail_data (sb : socket_buffer) : nat := length (buf sb).

Definition sb_create (max_buffer_size : nat) : socket_buffer :=
  {| max_bytes := max_buffer_size; buf := [] |}.

(** The result of a call: the return value, the octets written to
    [out], and the buffer and socket afterwards. *)
Record read_result := mk_rr
  { rv : Z; out : bytes; sb_after : socket_buffer; sock_after : socket }.

(** The code after the loop, for [eos] at offset [eos] from [buf]. *)
Definition copy_out (sb : socket_buffer) (sock : socket) (eos : Z)
  : read_result :=
  let n := Z.to_nat (eos + 1) in
  {| rv := eos + 1;
     out := take n (buf sb) ++ [NUL];
     sb_after := {| max_bytes := max_bytes sb; buf := drop n (buf sb) |};
     sock_after := sock |}.

(** The [while] loop; [fuel] bounds the number of calls to [recv]. *)
Fixpoint read_loop (fuel : nat) (sb : socket_buffer) (sock : socket)
  : option read_result :=
  match memchr (buf sb) LF with
  | Some i => Some (copy_out sb sock (Z.of_nat i))
  | None =>
      if (avail_data sb <? max_bytes sb)%nat then
        match fuel with
        | O => None
        | S fuel' =>
            let '(r, bs, sock') :=
              recv sock (max_bytes sb - avail_data sb) in
            if r <? 0 then
              Some {| rv := r; out := []; sb_after := sb; sock_after := sock' |}
            else if r =? 0 then
              Some (copy_out sb sock' (Z.of_nat (avail_data sb) - 1))
            else
              read_loop fuel'
                {| max_bytes := max_bytes sb; buf := buf sb ++ bs |} sock'
        end
      else Some (copy_out sb sock (Z.of_nat (max_bytes sb) - 1))
  end.

(** Every [recv] that lets the loop go on adds an octet, so the free
    space of the buffer bounds the number of calls. *)
Definition sb_read_line (sb : socket_buffer) (sock : socket)
  : option read_result :=
  read_loop (max_bytes sb - avail_data sb) sb sock.

(** The octets the peer sends before it closes or fails. *)
Fixpoint pending (sock : socket) : bytes :=
  match sock with
  | Data bs :: rest => bs ++ pending rest
  | _ => []
  end.

Fixpoint fails (sock : socket) : bool :=
  match sock with
  | Data _ :: rest => fails rest
  | Err :: _ => true
  | [] => false
  end.

End SocketBuffer.

(** ** Outcomes of code that can go wrong *)

Module Outcome.

(** The two ways the sessions leave defined behaviour: a null pointer
    handed to [strcpy], and a write past the end of an array. *)
Inductive fault := NullPointer | OutOfBounds.

Inductive result (A : Type) : Type :=
| Ok (a : A)
| Fault (f : fault).

Arguments Ok {A} a.
Arguments Fault {A} f.

Definition bind {A B : Type} (r : result A) (k : A -> result B) : result B :=
  match r with
  | Ok a => k a
  | Fault f => Fault f
  end.

Definition non_null {A : Type} (p : option A) : result A :=
  match p with
  | Some a => Ok a
  | None => Fault NullPointer
  end.

Definition in_bounds {A : Type} (p : option A) : result A :=
  match p with
  | Some a => Ok a
  | None => Fault OutOfBounds
  end.

(** What one turn of a session loop does after its line is read: the
    replies it sends, in order, and whether the loop goes on or is left
    by [break]. *)
Inductive turn (S : Type) : Type :=
| Continue (st : S) (sent : list (list ascii))
| Break (st : S) (sent : list (list ascii)).

Arguments Continue {S} st sent.
Arguments Break {S} st sent.

Definition state_of {S : Type} (t : turn S) : S :=
  match t with Continue st _ | Break st _ => st end.


End Outcome.

Notation "'let*' x ':=' e 'in' k" :=
  (Outcome.bind e (fun x => k))
  (at level 10, x pattern, e at level 100, k at level 200, only parsing).

(** ** The checks both servers share *)

Module Line.
Import Libc.

Definition MAX_LINE_LENGTH : Z := 1024.

(** [str[i]] for an offset the caller has checked. *)
Definition at_ (str : bytes) (i : Z) : option ascii :=
  if i <? 0 then None else str !! Z.to_nat i.

Definition is_byte (str : bytes) (i : Z) (c : ascii) : bool :=
  match at_ str i with
  | Some x => Ascii.eqb x c
  | None => false
  end.

Definition checkCRLF (str : bytes) (size : Z) : bool :=
  if (size =? 2) && is_byte str (size - 2) CR && is_byte str (size - 1) LF
  then false
  else if (3 <? size) && is_byte str (size - 2) CR && is_byte str (size - 1) LF
  then match at_ str (size - 3) with
       | Some c => negb (isspace c)
       | None => false
       end
  else false.

Definition checkCRLFSimple (str : bytes) (size : Z) : bool :=
  (1 <? size) && is_byte str (size - 2) CR && is_byte str (size - 1) LF.

(** [retrieveArgs]: the text after the first space, up to the CR. *)
Definition retrieveArgs (str : bytes) : option bytes :=
  match strchr str SP with
  | Some i => strtok_cr (drop (S i) str)
  | None => None
  end.

(** [sscanf(reply, "%s", command)] into [char command[41]]: the array
    keeps its contents when nothing is converted. *)
Definition scan_command (command reply : bytes) : Outcome.result bytes :=
  match sscanf_s reply with
  | None => Outcome.Ok command
  | Some w => Outcome.in_bounds (strcpy 40 w)
  end.

(** The buffer [reply] after [sb_read_line] returned the octets [l]. *)
Definition filled (l : bytes) : bytes := l ++ [NUL].

Definition size_of (l : bytes) : Z := Z.of_nat (length l).

End Line.

(** ** user.h: the mail store as the POP3 session sees it *)

Module User.
Import Libc.

Record mail_item := mk_item
  { file_name : bytes; item_size : Z; deleted : bool }.

Abbreviation mail_list := (list mail_item).

(** Modelled from the spec: [user.c] is not among the sources.  "The
    snapshot's [...] count is the number of non-deleted items." *)
Definition get_mail_count (l : mail_list) : Z :=
  Z.of_nat (length (filter (fun m => deleted m = false) l)).

(** Modelled from the spec: [user.c] is not among the sources.  "The
    snapshot's total size is the sum of sizes of non-deleted items." *)
Definition get_mail_list_size (l : mail_list) : Z :=
  foldr (fun m acc => if deleted m then acc else item_size m + acc) 0 l.

(** Modelled from the spec: [user.c] is not among the sources.  The item
    at a 0-based position, or the null indicator when there is none or it
    is marked deleted ("if the item exists and is not deleted"). *)
Definition get_mail_item (l : mail_list) (pos : Z) : option mail_item :=
  if pos <? 0 then None
  else match l !! Z.to_nat pos with
       | Some m => if deleted m then None else Some m
       | None => None
       end.

(** Modelled from the spec: [user.c] is not among the sources.  "Items
    carry a size (octets as stored)." *)
Definition get_mail_item_size (m : mail_item) : Z := item_size m.

Definition mark_deleted (m : mail_item) : mail_item :=
  {| file_name := file_name m; item_size := item_size m; deleted := true |}.

(** Modelled from the spec: [user.c] is not among the sources.  The item
    is marked through the pointer [get_mail_item] returned, so the mark
    lands in the list, at the position the item was found at. *)
Definition mark_mail_item_deleted (l : mail_list) (pos : Z) : mail_list :=
  alter mark_deleted (Z.to_nat pos) l.

Definition clear_deleted (m : mail_item) : mail_item :=
  {| file_name := file_name m; item_size := item_size m; deleted := false |}.

(** Modelled from the spec: [user.c] is not among the sources.  "RSET
    clears all deleted flags in the snapshot." *)
Definition reset_mail_list_deleted_flag (l : mail_list) : mail_list :=
  clear_deleted <$> l.

(** Modelled from the spec: [user.c] is not among the sources.  "The
    mailbox is [...] destroyed at QUIT in TRANSACTION state": no item of
    the snapshot is left. *)
Definition destroy_mail_list (l : mail_list) : mail_list := [].

End User.

(** ** popd.c: the POP3 session *)

Module Popd.
Import Libc Outcome Line User.

Definition sendWelcome : bytes := lit "+OK POP3 Server Ready" ++ [CR; LF].
Definition sendPositive : bytes := lit "+OK" ++ [CR; LF].
Definition sendNegative : bytes := lit "-ERR" ++ [CR; LF].
Definition endOfList : bytes := lit "." ++ [CR; LF].

(** [sprintf(count, "+OK %d %d\r\n", mailCount, (int)size)]: the
    [unsigned int] and the cast [size_t] both reach [%d] as an [int]. *)
Definition sendCountPositive (mailCount size : Z) : bytes :=
  lit "+OK " ++ sprintf_d (to_int mailCount) ++ lit " "
    ++ sprintf_d (to_int size) ++ [CR; LF].

Definition sendCount (mailCount size : Z) : bytes :=
  sprintf_d (to_int mailCount) ++ lit " "
    ++ sprintf_d (to_int size) ++ [CR; LF].

Fixpoint numbers_only (s : bytes) : bool :=
  match s with
  | [] => true
  | c :: s' => if isdigit c then numbers_only s' else false
  end.

(** [unsigned int index = (int)strtol(arg, NULL, 10)]. *)
Definition parse_index (arg : bytes) : Z := to_unsigned (to_int (strtol arg)).

(** The loop of [readEmail] over the octets of the file; [line] is
    [content[0..i)].  [content] has [MAX_LINE_LENGTH + 1] octets. *)
Fixpoint readEmail_loop (file line : bytes) : result (list bytes) :=
  match file with
  | [] => Ok []
  | c :: rest =>
      if MAX_LINE_LENGTH <? size_of line then Fault OutOfBounds
      else if Ascii.eqb c LF then
        if MAX_LINE_LENGTH <? size_of line + 1 then Fault OutOfBounds
        else let* more := readEmail_loop rest [] in
             Ok (cstr (line ++ [c]) :: more)
      else readEmail_loop rest (line ++ [c])
  end.

Record state := mk_state
  { authorization : bool;
    transaction : bool;
    accepted_user : bool;
    command : bytes;
    username : bytes;
    password : bytes;
    mailList : mail_list;
    mailCount : Z }.

Definition set_command (st : state) (c : bytes) : state :=
  mk_state (authorization st) (transaction st) (accepted_user st) c
    (username st) (password st) (mailList st) (mailCount st).

Definition set_username (st : state) (u : bytes) : state :=
  mk_state (authorization st) (transaction st) (accepted_user st) (command st)
    u (password st) (mailList st) (mailCount st).

Definition set_password (st : state) (p : bytes) : state :=
  mk_state (authorization st) (transaction st) (accepted_user st) (command st)
    (username st) p (mailList st) (mailCount st).

Definition set_accepted_user (st : state) (b : bool) : state :=
  mk_state (authorization st) (transaction st) b (command st)
    (username st) (password st) (mailList st) (mailCount st).

Definition set_mailList (st : state) (l : mail_list) : state :=
  mk_state (authorization st) (transaction st) (accepted_user st) (command st)
    (username st) (password st) l (mailCount st).

Section Session.

(** [MAX_USERNAME_SIZE] and the store behind [user.h]. *)
Variable MAX_USERNAME_SIZE : Z.
Variable is_valid_user : bytes -> option bytes -> bool.
Variable load_user_mail : bytes -> mail_list.
Variable open_mail : mail_item -> option bytes.

Definition readEmail (mail : mail_item) : result (list bytes) :=
  match open_mail mail with
  | Some file =>
      let* lines := readEmail_loop file [] in
      Ok (sendPositive :: lines ++ [endOfList])
  | None => Ok [sendNegative]
  end.

(** The [for] loop of LIST over the positions below [mailCount]. *)
Definition list_lines (l : mail_list) (count : Z) : list bytes :=
  flat_map
    (fun i : nat =>
       match get_mail_item l (Z.of_nat i) with
       | Some mail => [sendCount (to_unsigned (Z.of_nat i + 1))
                         (get_mail_item_size mail)]
       | None => []
       end)
    (seq 0 (Z.to_nat count)).

Definition is_cmd (st : state) (name : string) : bool :=
  strcasecmp (command st) (lit name) =? 0.

Definition authorization_state (st : state) (reply : bytes) (reply_size : Z)
  : result (turn state) :=
  if is_cmd st "USER" then
    if negb (reply_size =? 6) then
      let* arg := non_null (retrieveArgs reply) in
      let* name := in_bounds (strcpy MAX_USERNAME_SIZE arg) in
      let st := set_username st name in
      if is_valid_user name None
      then Ok (Continue (set_accepted_user st true) [sendPositive])
      else Ok (Continue st [sendNegative])
    else Ok (Continue st [sendNegative])
  else if is_cmd st "PASS" then
    if accepted_user st && negb (reply_size =? 6) then
      let* arg := non_null (retrieveArgs reply) in
      let* pw := in_bounds (strcpy MAX_USERNAME_SIZE arg) in
      let st := set_password st pw in
      if is_valid_user (username st) (Some pw) then
        let l := load_user_mail (username st) in
        Ok (Continue
              (mk_state false true (accepted_user st) (command st)
                 (username st) (password st) l (to_unsigned (get_mail_count l)))
              [sendPositive])
      else Ok (Continue (set_accepted_user st false) [sendNegative])
    else Ok (Continue (set_accepted_user st false) [sendNegative])
  else if is_cmd st "QUIT" && (reply_size =? 6) then
    Ok (Break st [sendPositive])
  else Ok (Continue st [sendNegative]).

(** The argument of LIST, RETR and DELE: a position, when the argument
    is there and all digits. *)
Definition numeric_arg (reply : bytes) : option Z :=
  match retrieveArgs reply with
  | Some arg => if numbers_only arg then Some (parse_index arg) else None
  | None => None
  end.

Definition transaction_state (st : state) (reply : bytes) (reply_size : Z)
  : result (turn state) :=
  let l := mailList st in
  if is_cmd st "STAT" && (reply_size =? 6) then
    Ok (Continue st
          [sendCountPositive (get_mail_count l) (get_mail_list_size l)])
  else if is_cmd st "LIST" then
    if reply_size =? 6 then
      Ok (Continue st
            (sendCountPositive (get_mail_count l) (get_mail_list_size l)
               :: list_lines l (mailCount st) ++ [endOfList]))
    else
      match numeric_arg reply with
      | Some index =>
          match get_mail_item l (to_unsigned (index - 1)) with
          | Some mail =>
              Ok (Continue st
                    [sendCountPositive index (get_mail_item_size mail)])
          | None => Ok (Continue st [sendNegative])
          end
      | None => Ok (Continue st [sendNegative])
      end
  else if is_cmd st "RETR" then
    match numeric_arg reply with
    | Some index =>
        match get_mail_item l (to_unsigned (index - 1)) with
        | Some mail => let* sent := readEmail mail in Ok (Continue st sent)
        | None => Ok (Continue st [sendNegative])
        end
    | None => Ok (Continue st [sendNegative])
    end
  else if is_cmd st "DELE" then
    match numeric_arg reply with
    | Some index =>
        match get_mail_item l (to_unsigned (index - 1)) with
        | Some mail =>
            Ok (Continue
                  (set_mailList st
                     (mark_mail_item_deleted l (to_unsigned (index - 1))))
                  [sendPositive])
        | None => Ok (Continue st [sendNegative])
        end
    | None => Ok (Continue st [sendNegative])
    end
  else if is_cmd st "NOOP" then
    Ok (Continue st [sendPositive])
  else if is_cmd st "RSET" && (reply_size =? 6) then
    let l' := reset_mail_list_deleted_flag l in
    Ok (Continue (set_mailList st l')
          [sendCountPositive (get_mail_count l') (get_mail_list_size l')])
  else if is_cmd st "QUIT" && (reply_size =? 6) then
    Ok (Break (set_mailList st (destroy_mail_list l)) [sendPositive])
  else Ok (Continue st [sendNegative]).

(** The body of the [while] loop of [handle_client], from the [sscanf]
    on. *)
Definition handle_line (st : state) (reply : bytes) (reply_size : Z)
  : result (turn state) :=
  let* cmd := scan_command (command st) reply in
  let st := set_command st cmd in
  if checkCRLF reply reply_size then
    if authorization st then authorization_state st reply reply_size
    else if transaction st then transaction_state st reply reply_size
    else Ok (Continue st [sendNegative])
  else Ok (Continue st [sendNegative]).

End Session.

End Popd.

(** ** smtpd.c: the SMTP session *)

Module Smtpd.
Import Libc Outcome Line.

Definition crlf (s : string) : bytes := lit s ++ [CR; LF].

Definition sendWelcome (domainName : bytes) : bytes :=
  lit "220 " ++ domainName ++ crlf " SMTP Server Ready".
Definition send221 : bytes := crlf "221 OK".
Definition send250 : bytes := crlf "250 OK".
Definition send354 : bytes := crlf "354 End data with <CRLF>.<CRLF>".
Definition send451 : bytes :=
  crlf "451 Requested action aborted: error in processing".
Definition send500 : bytes := crlf "500 Syntax error, command unrecognized".
Definition send501 : bytes :=
  crlf "501 Syntax error in parameters or arguments".
Definition send502 : bytes := crlf "502 Command not implemented".
Definition send503 : bytes := crlf "503 Bad sequence of commands".
Definition send555 : bytes := crlf "555 Recipient not recognized".

(** [uppercase]: the octets before the first zero octet go through
    [toupper], in place. *)
Fixpoint uppercase (temp : bytes) : bytes :=
  match temp with
  | [] => []
  | c :: rest =>
      if Ascii.eqb c NUL then temp else toupper c :: uppercase rest
  end.

(** [checkMailSyntax] and [checkRcptSyntax] differ in the keyword and the
    field width of their [sscanf].  The scan cannot come back empty once
    a '<' was found ([CommandFacts.keyword_scanned]), so its [None] case
    never decides. *)
Definition checkSyntax (width : nat) (keyword : string) (str : bytes) (size : Z)
  : bool :=
  match strchr str "<", strrchr str ">" with
  | Some openBracket, Some closeBracket =>
      if 1 <? Z.of_nat closeBracket - Z.of_nat openBracket then
        match sscanf_ws width str with
        | Some word =>
            if strcasecmp word (lit keyword) =? 0
            then is_byte str (size - 1) ">"
            else false
        | None => false
        end
      else false
  | _, _ => false
  end.

Definition checkMailSyntax : bytes -> Z -> bool := checkSyntax 6 "FROM:<".
Definition checkRcptSyntax : bytes -> Z -> bool := checkSyntax 4 "TO:<".

(** [retrieveEmail]: a NUL goes over the last '>', and the string after
    the first '<' is returned. *)
Definition retrieveEmail (str : bytes) : result bytes :=
  let* ret := non_null (strchr str "<") in
  let* closeBracket := non_null (strrchr str ">") in
  Ok (cstr (drop (S ret) (<[closeBracket := NUL]> str))).

(** The mail store as [saveEmail] reaches it: the number of temporary
    files asked for so far, and what was handed on for delivery, each a
    recipient given to [save_user_mail] with the octets given to
    [write]; the code looks at the result of neither call. *)
Record store := mk_store
  { mkstemp_calls : nat; delivered : list (bytes * bytes) }.

Record state := mk_state
  { received_helo : bool;
    received_mail : bool;
    received_rcpt : bool;
    received_data : bool;
    rcpt_count : Z;
    data : bytes;
    fromEmail : bytes;
    toEmail : list bytes;
    command : bytes;
    spool : store }.

Definition set_command (st : state) (c : bytes) : state :=
  mk_state (received_helo st) (received_mail st) (received_rcpt st)
    (received_data st) (rcpt_count st) (data st) (fromEmail st) (toEmail st)
    c (spool st).

Definition set_data (st : state) (d : bytes) : state :=
  mk_state (received_helo st) (received_mail st) (received_rcpt st)
    (received_data st) (rcpt_count st) d (fromEmail st) (toEmail st)
    (command st) (spool st).

Section Session.

(** [MAX_USERNAME_SIZE], the user directory behind [user.h], the host
    name, and the outcome of the n-th call to [mkstemp]: a descriptor, or
    [None] for the failure that returns -1. *)
Variable MAX_USERNAME_SIZE : Z.
Variable is_valid_user : bytes -> option bytes -> bool.
Variable domainName : bytes.
Variable mkstemp : nat -> option nat.

(** [saveEmail]: the descriptor [mkstemp] gave, after the [strlen(data)]
    octets of the message were handed to [write] and the recipient to
    [save_user_mail] when there is a descriptor. *)
Definition saveEmail (s : store) (toAddr dat : bytes) : Z * store :=
  match mkstemp (mkstemp_calls s) with
  | Some tempfd =>
      (Z.of_nat tempfd,
       {| mkstemp_calls := S (mkstemp_calls s);
          delivered := delivered s ++ [(toAddr, cstr dat)] |})
  | None =>
      (-1, {| mkstemp_calls := S (mkstemp_calls s);
              delivered := delivered s |})
  end.

(** The [for] loop at the end of DATA, over the rows it visits. *)
Fixpoint save_all (rows : list bytes) (dat : bytes) (success : Z) (s : store)
  : Z * store :=
  match rows with
  | [] => (success, s)
  | toAddr :: rows' =>
      let '(r, s') := saveEmail s toAddr dat in save_all rows' dat r s'
  end.

Definition is_cmd (st : state) (name : string) : bool :=
  strcasecmp (command st) (lit name) =? 0.

(** [strcpy(toEmail[rcpt_count++], email)] into
    [char toEmail[30][MAX_USERNAME_SIZE + 1]]. *)
Definition store_rcpt (st : state) (email : bytes) : result state :=
  if (rcpt_count st <? 0) || (30 <=? rcpt_count st) then Fault OutOfBounds
  else
    let* row := in_bounds (strcpy MAX_USERNAME_SIZE email) in
    Ok (mk_state (received_helo st) (received_mail st) (received_rcpt st)
          (received_data st) (rcpt_count st + 1) (data st) (fromEmail st)
          (<[Z.to_nat (rcpt_count st) := row]> (toEmail st))
          (command st) (spool st)).

(** The RCPT branch the MAIL and RCPT states share; the first of them
    also moves on to the RCPT state. *)
Definition rcpt_command (st : state) (reply : bytes) (first : bool)
  : result (turn state) :=
  match retrieveArgs reply with
  | Some rcptArgs =>
      if checkRcptSyntax rcptArgs (strlen rcptArgs) then
        let* email := retrieveEmail rcptArgs in
        if is_valid_user email None then
          let* st := store_rcpt st email in
          let st :=
            if first then
              mk_state (received_helo st) false true (received_data st)
                (rcpt_count st) (data st) (fromEmail st) (toEmail st)
                (command st) (spool st)
            else st in
          Ok (Continue st [send250])
        else Ok (Continue st [send555])
      else Ok (Continue st [send501])
  | None => Ok (Continue st [send501])
  end.

Definition data_state (st : state) (reply : bytes) (reply_size : Z)
  : result (turn state) :=
  if strstr_at_start reply (crlf ".") && (reply_size =? 3) then
    let rows := take (Z.to_nat (rcpt_count st)) (toEmail st) in
    let '(success, s) := save_all rows (data st) 0 (spool st) in
    (* free(data): no octet of the body is left; the next DATA allocates
       it anew before anything reads it *)
    let st :=
      mk_state (received_helo st) (received_mail st) (received_rcpt st)
        false 0 [] (fromEmail st) (toEmail st) (command st) s in
    if success =? -1 then Ok (Continue st [send451])
    else Ok (Continue st [send250])
  else
    (* strcat(data, reply), data holding 64000 octets and a NUL *)
    if 64000 <? strlen (data st) + strlen reply then Fault OutOfBounds
    else Ok (Continue (set_data st (cstr (data st) ++ cstr reply)) []).

Definition mail_state (st : state) (reply : bytes) : result (turn state) :=
  if is_cmd st "RCPT" then rcpt_command st reply true
  else if is_cmd st "HELO" || is_cmd st "MAIL" || is_cmd st "DATA"
  then Ok (Continue st [send503])
  else Ok (Continue st [send500]).

Definition rcpt_state (st : state) (reply : bytes) (reply_size : Z)
  : result (turn state) :=
  if is_cmd st "DATA" && (reply_size =? 6) then
    Ok (Continue
          (mk_state (received_helo st) (received_mail st) false true
             (rcpt_count st) [] (fromEmail st) (toEmail st)
             (command st) (spool st))
          [send354])
  else if is_cmd st "RCPT" then rcpt_command st reply false
  else if is_cmd st "HELO" || is_cmd st "MAIL"
  then Ok (Continue st [send503])
  else Ok (Continue st [send500]).

Definition helo_state (st : state) (reply : bytes) : result (turn state) :=
  if is_cmd st "MAIL" then
    match retrieveArgs reply with
    | Some mailArgs =>
        if checkMailSyntax mailArgs (strlen mailArgs) then
          let* email := retrieveEmail mailArgs in
          let* addr := in_bounds (strcpy MAX_USERNAME_SIZE email) in
          Ok (Continue
                (mk_state (received_helo st) true (received_rcpt st)
                   (received_data st) (rcpt_count st) (data st) addr
                   (toEmail st) (command st) (spool st))
                [send250])
        else Ok (Continue st [send501])
    | None => Ok (Continue st [send501])
    end
  else if is_cmd st "HELO" || is_cmd st "RCPT" || is_cmd st "DATA"
  then Ok (Continue st [send503])
  else Ok (Continue st [send500]).

(** The initial state; [initialMessage] has 200 octets. *)
Definition initial_state (st : state) : result (turn state) :=
  if is_cmd st "HELO" then
    let* msg := in_bounds (strcpy 199 (lit "250 " ++ domainName ++ [CR; LF])) in
    Ok (Continue
          (mk_state true (received_mail st) (received_rcpt st)
             (received_data st) (rcpt_count st) (data st) (fromEmail st)
             (toEmail st) (command st) (spool st))
          [msg])
  else if is_cmd st "MAIL" || is_cmd st "RCPT" || is_cmd st "DATA"
  then Ok (Continue st [send503])
  else Ok (Continue st [send500]).

(** The body of the [while] loop of [handle_client], from the [sscanf]
    on. *)
Definition handle_line (st : state) (reply : bytes) (reply_size : Z)
  : result (turn state) :=
  let* cmd := scan_command (command st) reply in
  let st := set_command st cmd in
  if checkCRLF reply reply_size
     || (received_data st && checkCRLFSimple reply reply_size) then
    if received_data st then data_state st reply reply_size
    else if is_cmd st "NOOP" then Ok (Continue st [send250])
    else if is_cmd st "QUIT" then Ok (Break st [send221])
    else if is_cmd st "EHLO" || is_cmd st "RSET" || is_cmd st "VRFY"
            || is_cmd st "EXPN" || is_cmd st "HELP"
    then Ok (Continue st [send502])
    else if received_mail st then mail_state st reply
    else if received_rcpt st then rcpt_state st reply reply_size
    else if received_helo st then helo_state st reply
    else initial_state st
  else Ok (Continue st [send500]).

End Session.

End Smtpd.

(** ** The loop of [handle_client] around a session *)

Module Server.
Import Libc Outcome Line SocketBuffer.

(** A connection: what the peer still sends, the line buffer, what went
    out on the wire, and how many more writes succeed before the peer is
    gone ([None]: all of them). *)
Record conn := mk_conn
  { sock : socket;
    buffer : socket_buffer;
    wire : list bytes;
    writes_left : option nat }.

(** [send_all]/[send_string]: -1 once the peer is gone. *)
Definition send_all (c : conn) (msg : bytes) : Z * conn :=
  match writes_left c with
  | Some O => (-1, c)
  | Some (S n) =>
      (size_of msg, mk_conn (sock c) (buffer c) (wire c ++ [msg]) (Some n))
  | None =>
      (size_of msg, mk_conn (sock c) (buffer c) (wire c ++ [msg]) None)
  end.

(** The sends of one turn; [send_status] is what the last one returned. *)
Fixpoint send_each (c : conn) (msgs : list bytes) (send_status : Z)
  : Z * conn :=
  match msgs with
  | [] => (send_status, c)
  | m :: msgs' => let '(r, c') := send_all c m in send_each c' msgs' r
  end.

Section Loop.

Context {S : Type}.
Variable handle_line : S -> bytes -> Z -> result (turn S).

(** [while (1) { ... }]; [fuel] bounds the number of lines read, and
    [None] is running out of it. *)
Fixpoint client_loop (fuel : nat) (st : S) (c : conn) (send_status : Z)
  : option (result (S * conn)) :=
  match fuel with
  | O => None
  | Datatypes.S fuel' =>
      match sb_read_line (buffer c) (sock c) with
      | None => None
      | Some r =>
          let c := mk_conn (sock_after r) (sb_after r) (wire c)
                     (writes_left c) in
          if (rv r =? 0) || (rv r =? -1) || (send_status =? -1)
          then Some (Ok (st, c))
          else
            match handle_line st (out r) (rv r) with
            | Fault f => Some (Fault f)
            | Ok (Continue st' msgs) =>
                let '(status, c') := send_each c msgs send_status in
                if status =? -1 then Some (Ok (st', c'))
                else client_loop fuel' st' c' status
            | Ok (Break st' msgs) =>
                let '(_, c') := send_each c msgs send_status in
                Some (Ok (st', c'))
            end
      end
  end.

(** [handle_client]: the welcome message, then the loop. *)
Definition handle_client (fuel : nat) (welcome : bytes) (st : S)
    (peer : socket) (writes : option nat) : option (result (S * conn)) :=
  let c := mk_conn peer (sb_create (Z.to_nat MAX_LINE_LENGTH)) [] writes in
  let '(send_status, c) := send_all c welcome in
  client_loop fuel st c send_status.

End Loop.

(** What went out on the wire in a run that ended without a fault. *)
Definition transcript {S : Type} (r : option (result (S * conn)))
  : option (list bytes) :=
  match r with
  | Some (Ok (_, c)) => Some (wire c)
  | _ => None
  end.

(** A peer that sends each line in a segment of its own, with its CRLF,
    and then closes. *)
Definition lines (ls : list string) : socket :=
  map (fun l => Data (lit l ++ [CR; LF])) ls.

End Server.

(** ** The rules the sessions are checked against *)

Module Rules.
Import Libc Line SocketBuffer User.

(** What a call of [sb_read_line] returns, read off the octets buffered
    and still to come: the line up to the first LF among the first [max]
    octets; all [max] octets when there are that many and no LF;
    otherwise what is there when the peer closes, or -1 when the peer
    fails. *)
Definition line_rv (max : nat) (s : bytes) (failing : bool) : Z :=
  match index_of LF (take max s) with
  | Some i => Z.of_nat i + 1
  | None =>
      if (max <=? length s)%nat then Z.of_nat max
      else if failing then -1 else Z.of_nat (length s)
  end.

Definition reads (sb : socket_buffer) (sock : socket) (r : read_result)
  : Prop :=
  let s := buf sb ++ pending sock in
  rv r = line_rv (max_bytes sb) s (fails sock)
  /\ (0 <= rv r -> out r = take (Z.to_nat (rv r)) s ++ [NUL])
  /\ max_bytes (sb_after r) = max_bytes sb
  /\ (avail_data (sb_after r) <= max_bytes sb)%nat.

(** The rule for a line as the specification words it: at least three
    octets, the last two CR LF, and the octet before the CR not white
    space. *)
Definition well_formed (l : bytes) : bool :=
  match rev l with
  | lf :: cr :: c :: _ => Ascii.eqb cr CR && Ascii.eqb lf LF && negb (isspace c)
  | _ => false
  end.

(** The relaxed rule: the last two octets are CR LF. *)
Definition ends_in_crlf (l : bytes) : bool :=
  match rev l with
  | lf :: cr :: _ => Ascii.eqb cr CR && Ascii.eqb lf LF
  | _ => false
  end.

(** The line that ends DATA. *)
Definition dot_line : bytes := lit "." ++ [CR; LF].

Definition no_nul (s : bytes) : bool :=
  forallb (fun c => negb (Ascii.eqb c NUL)) s.

(** Names that differ after folding, neither with a zero octet in it. *)
Definition distinct_names (n m : string) : bool :=
  no_nul (lit n) && no_nul (lit m)
  && negb (strcasecmp (lit n) (lit m) =? 0).

(** The SMTP states of the specification, told apart the way the
    dispatch of [handle_client] tells them apart. *)
Inductive phase := GREETED | HELO_OK | MAIL_OK | RCPT_OK | DATA_MODE.

Definition phase_of (st : Smtpd.state) : phase :=
  if Smtpd.received_data st then DATA_MODE
  else if Smtpd.received_mail st then MAIL_OK
  else if Smtpd.received_rcpt st then RCPT_OK
  else if Smtpd.received_helo st then HELO_OK
  else GREETED.

(** The commands for which a state answers 503. *)
Definition mandates_503 (p : phase) (name : string) : bool :=
  match p with
  | GREETED => existsb (String.eqb name) ["MAIL"; "RCPT"; "DATA"]%string
  | HELO_OK => existsb (String.eqb name) ["HELO"; "RCPT"; "DATA"]%string
  | MAIL_OK => existsb (String.eqb name) ["HELO"; "MAIL"; "DATA"]%string
  | RCPT_OK => existsb (String.eqb name) ["HELO"; "MAIL"]%string
  | DATA_MODE => false
  end.

(** The size of a snapshot with the marks left aside, and the snapshots
    without a mark. *)
Definition total_size (l : mail_list) : Z :=
  foldr (fun m acc => item_size m + acc) 0 l.

Definition none_deleted (l : mail_list) : bool :=
  forallb (fun m => negb (deleted m)) l.

(** What [saveEmail] returns for an outcome of [mkstemp]. *)
Definition fd_or_error (r : option nat) : Z :=
  match r with Some fd => Z.of_nat fd | None => -1 end.

End Rules.

(** ** Stores and sessions to run the code on *)

Module Fixtures.
Import Libc User.

Definition named (s : string) (b : bytes) : bool :=
  String.eqb (string_of_list_ascii b) s.

(** A POP3 store with the one user alice, whose password is pw and who
    has one message of 100 octets. *)
Definition alice_only (name : bytes) (pw : option bytes) : bool :=
  named "alice" name
  && match pw with Some p => named "pw" p | None => true end.

Definition alice_mail (_ : bytes) : mail_list :=
  [mk_item (lit "1.mail") 100 false].

(** A mailbox with a message of 100 and one of 200 octets. *)
Definition two_mails (_ : bytes) : mail_list :=
  [mk_item (lit "1.mail") 100 false; mk_item (lit "2.mail") 200 false].

Definition no_file (_ : mail_item) : option bytes := None.

(** The POP3 session as it starts, after [USER alice] was accepted, and
    after alice logged in. *)
Definition fresh : Popd.state :=
  Popd.mk_state true false false [] [] [] [] 0.

Definition alice_accepted : Popd.state :=
  Popd.mk_state true false true (lit "USER") (lit "alice") [] [] 0.

Definition alice_in : Popd.state :=
  Popd.mk_state false true true (lit "PASS") (lit "alice") (lit "pw")
    (alice_mail []) 1.

(** An SMTP host with the mailboxes alice and bob. *)
Definition alice_and_bob (name : bytes) (_ : option bytes) : bool :=
  named "alice" name || named "bob" name.

(** [mkstemp] that always succeeds, and one that fails the first time. *)
Definition always (_ : nat) : option nat := Some 3%nat.

Definition first_fails (n : nat) : option nat :=
  match n with O => None | _ => Some 3%nat end.

(** The SMTP session as it starts, and after HELO, MAIL, RCPT TO:<bob>
    and DATA. *)
Definition greeted : Smtpd.state :=
  Smtpd.mk_state false false false false 0 [] [] (replicate 30 []) []
    (Smtpd.mk_store 0 []).

Definition in_data : Smtpd.state :=
  Smtpd.mk_state true false false true 1 [] (lit "a@x")
    (<[0%nat := lit "bob"]> (replicate 30 [])) (lit "DATA")
    (Smtpd.mk_store 0 []).

End Fixtures.

(** ** What the sessions keep from line to line *)

Module Invariants.
Import Libc Rules.

(** POP3: the session is in one of its two states. *)
Definition one_state (st : Popd.state) : bool :=
  xorb (Popd.authorization st) (Popd.transaction st).

(** SMTP: the four flags say one of the five states; [toEmail] has its
    30 rows; there is no recipient before the first RCPT and between 1
    and 30 from then on; and during DATA the body holds no zero octet. *)
Definition flags_consistent (st : Smtpd.state) : bool :=
  match Smtpd.received_data st, Smtpd.received_mail st,
        Smtpd.received_rcpt st, Smtpd.received_helo st with
  | false, false, false, _ => true
  | false, true, false, true => true
  | false, false, true, true => true
  | true, false, false, true => true
  | _, _, _, _ => false
  end.

Definition consistent (st : Smtpd.state) : bool :=
  flags_consistent st
  && (length (Smtpd.toEmail st) =? 30)%nat
  && (if Smtpd.received_rcpt st || Smtpd.received_data st
      then (1 <=? Smtpd.rcpt_count st) && (Smtpd.rcpt_count st <=? 30)
      else Smtpd.rcpt_count st =? 0)
  && (negb (Smtpd.received_data st) || no_nul (Smtpd.data st)).

(** Words without white space. *)
Definition no_space (w : bytes) : bool :=
  forallb (fun c => negb (isspace c)) w.

End Invariants.

(** * Properties *)

(** ** Octets *)

Module LibcFacts.
Import Libc.

Lemma index_of_Some c l i :
  index_of c l = Some i -> (i < length l)%nat /\ l !! i = Some c.
Proof.
  revert i; induction l as [|x l IH]; intros i; simpl; [discriminate|].
  destruct (Ascii.eqb_spec x c) as [->|Hne].
  - intros [= <-]; split; [lia | reflexivity].
  - destruct (index_of c l) as [j|]; [|discriminate].
    intros [= <-]. destruct (IH j eq_refl) as [Hlt Hj].
    split; [lia | exact Hj].
Qed.

Lemma index_of_None c l : index_of c l = None <-> c ∉ l.
Proof.
  induction l as [|x l IH]; simpl.
  - split; [intros _; apply not_elem_of_nil | reflexivity].
  - rewrite not_elem_of_cons.
    destruct (Ascii.eqb_spec x c) as [->|Hne].
    + split; [discriminate | intros [[] _]; reflexivity].
    + destruct (index_of c l) as [j|]; simpl.
      * split; [discriminate | intros [_ H]; apply IH in H; discriminate].
      * split; [intros _; split; [congruence | apply IH; reflexivity]
               | reflexivity].
Qed.

Lemma index_of_app_l c l l' i :
  index_of c l = Some i -> index_of c (l ++ l') = Some i.
Proof.
  revert i; induction l as [|x l IH]; intros i; simpl; [discriminate|].
  destruct (Ascii.eqb x c); [trivial|].
  destruct (index_of c l) as [j|]; [|discriminate].
  intros [= <-]. rewrite (IH j eq_refl). reflexivity.
Qed.

Lemma index_of_take c l i n :
  index_of c l = Some i -> (i < n)%nat -> index_of c (take n l) = Some i.
Proof.
  revert i n; induction l as [|x l IH]; intros i n; simpl; [discriminate|].
  destruct n as [|n]; [lia|]. simpl.
  destruct (Ascii.eqb x c); [trivial|].
  destruct (index_of c l) as [j|]; [|discriminate].
  intros [= <-] Hlt. rewrite (IH j n eq_refl); [reflexivity | lia].
Qed.

Lemma cstr_id l : NUL ∉ l -> cstr l = l.
Proof.
  induction l as [|x l IH]; simpl; [reflexivity|].
  rewrite not_elem_of_cons; intros [Hx Hl].
  destruct (Ascii.eqb_spec x NUL) as [->|_]; [congruence|].
  rewrite IH; auto.
Qed.

(** The string seen in a buffer that ends in a NUL is the one seen in
    its octets. *)
Lemma cstr_filled l : cstr (l ++ [NUL]) = cstr l.
Proof.
  induction l as [|x l IH]; simpl; [reflexivity|].
  destruct (Ascii.eqb x NUL); [reflexivity | rewrite IH; reflexivity].
Qed.

End LibcFacts.

(** ** The line reader *)

Module SocketBufferFacts.
Import Libc SocketBuffer Rules LibcFacts.

Lemma read_loop_eq fuel sb sock :
  read_loop fuel sb sock =
  match memchr (buf sb) LF with
  | Some i => Some (copy_out sb sock (Z.of_nat i))
  | None =>
      if (avail_data sb <? max_bytes sb)%nat then
        match fuel with
        | O => None
        | S fuel' =>
            let '(r, bs, sock') :=
              recv sock (max_bytes sb - avail_data sb) in
            if r <? 0 then
              Some {| rv := r; out := []; sb_after := sb; sock_after := sock' |}
            else if r =? 0 then
              Some (copy_out sb sock' (Z.of_nat (avail_data sb) - 1))
            else
              read_loop fuel'
                {| max_bytes := max_bytes sb; buf := buf sb ++ bs |} sock'
        end
      else Some (copy_out sb sock (Z.of_nat (max_bytes sb) - 1))
  end.
Proof. destruct fuel; reflexivity. Qed.

(** No [recv] is needed when a line is buffered or the buffer is full. *)
Lemma read_loop_ready fuel sb sock :
  (avail_data sb <= max_bytes sb)%nat ->
  is_Some (index_of LF (buf sb)) \/ avail_data sb = max_bytes sb ->
  exists r, read_loop fuel sb sock = Some r /\ reads sb sock r.
Proof.
  unfold avail_data. intros Hle Hready. rewrite read_loop_eq.
  unfold memchr. destruct (index_of LF (buf sb)) as [i|] eqn:Hi.
  - destruct (index_of_Some _ _ _ Hi) as [Hlt _].
    eexists; split; [reflexivity|].
    unfold reads, copy_out, line_rv, avail_data; simpl.
    rewrite (index_of_take _ _ i _ (index_of_app_l _ _ _ _ Hi)) by lia.
    split; [lia|]. split; [|split; [reflexivity|]].
    + intros _. replace (Z.to_nat (Z.of_nat i + 1)) with (S i) by lia.
      rewrite take_app_le by lia. reflexivity.
    + rewrite length_drop. lia.
  - destruct Hready as [[j Hj]|Hfull]; [discriminate|].
    unfold avail_data. rewrite Hfull, Nat.ltb_irrefl.
    eexists; split; [reflexivity|].
    unfold reads, copy_out, line_rv, avail_data; simpl.
    rewrite take_app_le by lia. rewrite <- Hfull, firstn_all, Hi.
    rewrite length_app.
    destruct (Nat.leb_spec (length (buf sb)) (length (buf sb) + length (pending sock)));
      [|lia].
    replace (Z.to_nat (Z.of_nat (length (buf sb)) - 1 + 1))
      with (length (buf sb)) by lia.
    split; [lia|]. split; [|split; [reflexivity|]].
    + intros _. rewrite take_app_le by lia. rewrite firstn_all. reflexivity.
    + rewrite length_drop. lia.
Qed.

Lemma reads_same_stream sb sock sb1 sock1 r :
  max_bytes sb1 = max_bytes sb ->
  buf sb1 ++ pending sock1 = buf sb ++ pending sock ->
  fails sock1 = fails sock ->
  reads sb1 sock1 r -> reads sb sock r.
Proof.
  unfold reads. intros -> -> ->. trivial.
Qed.

(** The loop returns, and returns what [line_rv] says, with fuel for one
    [recv] per free octet. *)
Lemma read_loop_spec sock : forall fuel sb,
  (avail_data sb <= max_bytes sb)%nat ->
  (max_bytes sb - avail_data sb <= fuel)%nat ->
  exists r, read_loop fuel sb sock = Some r /\ reads sb sock r.
Proof.
  induction sock as [|e rest IH]; intros fuel sb Hle Hfuel.
  all: destruct (index_of LF (buf sb)) as [i|] eqn:Hi;
    [apply read_loop_ready; [exact Hle | left; rewrite Hi; eauto]|].
  all: destruct (Nat.eq_dec (avail_data sb) (max_bytes sb)) as [Hfull|Hroom];
    [apply read_loop_ready; [exact Hle | right; exact Hfull]|].
  all: assert (Hlt : (avail_data sb <? max_bytes sb)%nat = true)
    by (apply Nat.ltb_lt; lia).
  all: destruct fuel as [|fuel]; [lia|].
  - (* the peer has closed *)
    simpl. unfold memchr. rewrite Hi, Hlt. simpl.
    eexists; split; [reflexivity|].
    unfold reads, copy_out, line_rv, avail_data in *; simpl.
    rewrite app_nil_r, take_ge, Hi by lia.
    destruct (Nat.leb_spec (max_bytes sb) (length (buf sb))); [lia|].
    replace (Z.to_nat (Z.of_nat (length (buf sb)) - 1 + 1))
      with (length (buf sb)) by lia.
    rewrite firstn_all, drop_all. simpl.
    repeat split; try lia. 
  - destruct e as [bs|].
    + destruct bs as [|b bs].
      * (* an empty segment is skipped *)
        destruct (IH (S fuel) sb Hle Hfuel) as (r & Hr & Hreads).
        exists r. split; [|exact Hreads].
        rewrite <- Hr. simpl. unfold memchr. rewrite Hi, Hlt. reflexivity.
      * set (len := (max_bytes sb - avail_data sb)%nat).
        set (got := take len (b :: bs)).
        set (sb1 := {| max_bytes := max_bytes sb; buf := buf sb ++ got |}).
        assert (Hgot : (0 < length got <= len)%nat).
        { subst got. rewrite length_take. simpl. lia. }
        assert (Hstep : read_loop (S fuel) sb (Data (b :: bs) :: rest) =
                        read_loop fuel sb1
                          match drop len (b :: bs) with
                          | [] => rest
                          | more => Data more :: rest
                          end).
        { simpl read_loop at 1. unfold memchr. rewrite Hi, Hlt.
          unfold recv. fold len. fold got.
          destruct (Z.ltb_spec (Z.of_nat (length got)) 0); [lia|].
          destruct (Z.eqb_spec (Z.of_nat (length got)) 0); [lia|].
          reflexivity. }
        rewrite Hstep.
        assert (Hle1 : (avail_data sb1 <= max_bytes sb1)%nat).
        { unfold avail_data, sb1 in *; simpl. rewrite length_app. lia. }
        destruct (drop len (b :: bs)) as [|m more] eqn:Hdrop.
        -- (* the segment fits: go on with the rest *)
           assert (Hall : got = b :: bs).
           { subst got. rewrite <- (take_drop len (b :: bs)) at 2.
             rewrite Hdrop, app_nil_r. reflexivity. }
           destruct (IH fuel sb1 Hle1) as (r & Hr & Hreads).
           { unfold avail_data, sb1 in *; simpl. rewrite length_app. lia. }
           exists r. split; [exact Hr|].
           apply (reads_same_stream sb _ sb1 rest); auto.
           simpl. rewrite Hall, <- app_assoc. reflexivity.
        -- (* the segment fills the buffer *)
           assert (Hlen : length got = len).
           { subst got. rewrite length_take.
             assert (len < length (b :: bs))%nat; [|lia].
             destruct (Nat.lt_ge_cases len (length (b :: bs))); [trivial|].
             rewrite drop_ge in Hdrop by lia. discriminate. }
           destruct (read_loop_ready fuel sb1 (Data (m :: more) :: rest) Hle1)
             as (r & Hr & Hreads).
           { right. unfold avail_data, sb1 in *; simpl.
             rewrite length_app. lia. }
           exists r. split; [exact Hr|].
           apply (reads_same_stream sb _ sb1 (Data (m :: more) :: rest)); auto.
           cbn [pending buf sb1]. rewrite <- Hdrop, <- app_assoc.
           subst got. rewrite (app_assoc (take len (b :: bs))), take_drop.
           reflexivity.
    + (* the peer fails *)
      simpl. unfold memchr. rewrite Hi, Hlt. simpl.
      eexists; split; [reflexivity|].
      unfold reads, line_rv, avail_data in *; simpl.
      rewrite app_nil_r, take_ge, Hi by lia.
      destruct (Nat.leb_spec (max_bytes sb) (length (buf sb))); [lia|].
      repeat split; try lia.
Qed.

Lemma line_rv_bounds max s failing :
  line_rv max s failing <= Z.of_nat max
  /\ line_rv max s failing <= Z.of_nat (length s).
Proof.
  unfold line_rv. destruct (index_of LF (take max s)) as [i|] eqn:Hi.
  - apply index_of_Some in Hi as [Hlt _]. rewrite length_take in Hlt. lia.
  - destruct (Nat.leb_spec max (length s)); [lia|].
    destruct failing; lia.
Qed.

(** When the first [max_bytes] octets hold no LF, they come back as one
    line. *)
Lemma sb_read_line_full (sb : socket_buffer) (sock : socket) :
  (avail_data sb <= max_bytes sb)%nat ->
  LF ∉ take (max_bytes sb) (buf sb ++ pending sock) ->
  (max_bytes sb <= length (buf sb ++ pending sock))%nat ->
  exists r,
    sb_read_line sb sock = Some r
    /\ rv r = Z.of_nat (max_bytes sb)
    /\ out r = take (max_bytes sb) (buf sb ++ pending sock) ++ [NUL].
Proof.
  intros Hle Hno Hfull. unfold sb_read_line.
  destruct (read_loop_spec sock (max_bytes sb - avail_data sb) sb Hle)
    as (r & Hr & Hrv & Hout & _); [lia|].
  apply index_of_None in Hno.
  assert (Hval : rv r = Z.of_nat (max_bytes sb)).
  { rewrite Hrv. unfold line_rv. rewrite Hno.
    destruct (Nat.leb_spec (max_bytes sb) (length (buf sb ++ pending sock)));
      [reflexivity|lia]. }
  exists r. split; [exact Hr|]. split; [exact Hval|].
  rewrite Hout by lia. rewrite Hval, Nat2Z.id. reflexivity.
Qed.

End SocketBufferFacts.

Module ReaderContract.
Import Libc SocketBuffer Rules LibcFacts SocketBufferFacts.

(** C8: a call of [sb_read_line] on a buffer within its capacity returns
    and leaves the buffer within its capacity; it returns at most
    [max_bytes] octets, and the octets written to [out] are the returned
    ones followed by a zero octet.  When the first [max_bytes] octets
    buffered and arriving hold no LF, they are returned as one line of
    length [max_bytes].  When the peer closes before a line is complete,
    what is buffered is returned, with its length (so 0 when nothing is
    buffered, at least 1 otherwise); when the peer fails instead, the
    call returns -1. *)
Theorem sb_read_line_contract (sb : socket_buffer) (sock : socket) :
  (avail_data sb <= max_bytes sb)%nat ->
  exists r,
    sb_read_line sb sock = Some r
    /\ max_bytes (sb_after r) = max_bytes sb
    /\ (avail_data (sb_after r) <= max_bytes (sb_after r))%nat
    /\ rv r <= Z.of_nat (max_bytes sb)
    /\ (0 <= rv r ->
        out r = take (Z.to_nat (rv r)) (buf sb ++ pending sock) ++ [NUL]
        /\ length (out r) = S (Z.to_nat (rv r))
        /\ out r !! Z.to_nat (rv r) = Some NUL)
    /\ (LF ∉ take (max_bytes sb) (buf sb ++ pending sock) ->
        (max_bytes sb <= length (buf sb ++ pending sock))%nat ->
        rv r = Z.of_nat (max_bytes sb)
        /\ out r = take (max_bytes sb) (buf sb ++ pending sock) ++ [NUL])
    /\ (LF ∉ buf sb ++ pending sock ->
        (length (buf sb ++ pending sock) < max_bytes sb)%nat ->
        fails sock = false ->
        rv r = Z.of_nat (length (buf sb ++ pending sock))
        /\ out r = buf sb ++ pending sock ++ [NUL]
        /\ (buf sb ++ pending sock <> [] -> 1 <= rv r)
        /\ (buf sb ++ pending sock = [] -> rv r = 0))
    /\ (LF ∉ buf sb ++ pending sock ->
        (length (buf sb ++ pending sock) < max_bytes sb)%nat ->
        fails sock = true ->
        rv r = -1).
Proof.
  intros Hle. unfold sb_read_line.
  destruct (read_loop_spec sock (max_bytes sb - avail_data sb) sb Hle)
    as (r & Hr & Hrv & Hout & Hcap & Hinv); [lia|].
  set (s := buf sb ++ pending sock) in *.
  destruct (line_rv_bounds (max_bytes sb) s (fails sock)) as [Hmax Hlen].
  exists r. split; [exact Hr|]. split; [exact Hcap|].
  split; [rewrite Hcap; exact Hinv|]. split; [lia|].
  split; [|split; [|split]].
  - intros Hpos. specialize (Hout Hpos).
    assert (Htake : length (take (Z.to_nat (rv r)) s) = Z.to_nat (rv r))
      by (rewrite length_take; lia).
    split; [exact Hout|]. rewrite Hout. split.
    + rewrite length_app, Htake. simpl. lia.
    + rewrite lookup_app_r by lia. rewrite Htake, Nat.sub_diag. reflexivity.
  - intros Hno Hfull. apply index_of_None in Hno.
    assert (Hval : rv r = Z.of_nat (max_bytes sb)).
    { rewrite Hrv. unfold line_rv. rewrite Hno.
      destruct (Nat.leb_spec (max_bytes sb) (length s)); [reflexivity|lia]. }
    split; [exact Hval|]. rewrite Hout by lia. rewrite Hval, Nat2Z.id.
    reflexivity.
  - intros Hno Hshort Hclose.
    assert (Hval : rv r = Z.of_nat (length s)).
    { rewrite Hrv. unfold line_rv. rewrite take_ge by lia.
      apply index_of_None in Hno. rewrite Hno, Hclose.
      destruct (Nat.leb_spec (max_bytes sb) (length s)); [lia|reflexivity]. }
    split; [exact Hval|]. split; [|split].
    + rewrite Hout by lia. rewrite Hval, Nat2Z.id, firstn_all.
      subst s. rewrite <- app_assoc. reflexivity.
    + intros Hne. rewrite Hval. destruct s; [congruence | simpl; lia].
    + intros Hnil. rewrite Hval, Hnil. reflexivity.
  - intros Hno Hshort Hfail.
    rewrite Hrv. unfold line_rv. rewrite take_ge by lia.
    apply index_of_None in Hno. rewrite Hno, Hfail.
    destruct (Nat.leb_spec (max_bytes sb) (length s)); [lia|reflexivity].
Qed.

Lemma sb_read_line_contract_witness :
  (avail_data (sb_create 1024) <= max_bytes (sb_create 1024))%nat
  /\ exists r,
       sb_read_line (sb_create 1024)
         [Data (lit "NO"); Data (lit "OP" ++ [CR; LF] ++ lit "QUIT")] = Some r
       /\ rv r <= 1024.
Proof.
  assert (H : (avail_data (sb_create 1024) <= max_bytes (sb_create 1024))%nat)
    by (cbn [avail_data sb_create buf max_bytes length]; lia).
  split; [exact H|].
  destruct (sb_read_line_contract (sb_create 1024)
              [Data (lit "NO"); Data (lit "OP" ++ [CR; LF] ++ lit "QUIT")] H)
    as (r & Hr & _ & _ & Hmax & _).
  exists r. split; [exact Hr | exact Hmax].
Defined.

(** The reader on the stream of the witness: the first line, with the
    rest kept for the next call. *)
Example sb_read_line_splits :
  (fun r => (rv r, out r, buf (sb_after r))) <$>
    sb_read_line (sb_create 1024)
      [Data (lit "NO"); Data (lit "OP" ++ [CR; LF] ++ lit "QUIT")]
  = Some (6, lit "NOOP" ++ [CR; LF; NUL], lit "QUIT").
Proof. vm_compute. reflexivity. Qed.

End ReaderContract.

(** ** The line checks *)

Module LineFacts.
Import Libc Line Rules LibcFacts.

Lemma at_app pre rest j :
  0 <= j -> at_ (pre ++ rest) (Z.of_nat (length pre) + j) = at_ rest j.
Proof.
  intros Hj. unfold at_.
  destruct (Z.ltb_spec (Z.of_nat (length pre) + j) 0); [lia|].
  destruct (Z.ltb_spec j 0); [lia|].
  rewrite lookup_app_r by lia. f_equal. lia.
Qed.

Lemma is_byte_app pre rest j c :
  0 <= j ->
  is_byte (pre ++ rest) (Z.of_nat (length pre) + j) c = is_byte rest j c.
Proof. intros Hj. unfold is_byte. rewrite at_app by lia. reflexivity. Qed.

(** A list seen from its end. *)
Lemma from_the_end (l : bytes) :
  l = [] \/ (exists a, l = [a]) \/ (exists a b, l = [a; b])
  \/ exists pre c a b, l = pre ++ [c; a; b].
Proof.
  rewrite <- (rev_involutive l). destruct (rev l) as [|b [|a [|c r]]]; simpl.
  - left; reflexivity.
  - right; left; eauto.
  - right; right; left; eauto.
  - right; right; right. exists (rev r), c, a, b.
    rewrite <- !app_assoc. reflexivity.
Qed.

Lemma well_formed_app pre c a b :
  well_formed (pre ++ [c; a; b]) =
  Ascii.eqb a CR && Ascii.eqb b LF && negb (isspace c).
Proof.
  unfold well_formed. rewrite rev_app_distr. reflexivity.
Qed.

Lemma ends_in_crlf_app pre c a b :
  ends_in_crlf (pre ++ [c; a; b]) = Ascii.eqb a CR && Ascii.eqb b LF.
Proof.
  unfold ends_in_crlf. rewrite rev_app_distr. reflexivity.
Qed.

(** What [checkCRLF] decides on the octets of a line: the rule of the
    specification, for lines of more than three octets. *)
Lemma checkCRLF_spec (l : bytes) :
  checkCRLF (filled l) (size_of l) = well_formed l && (3 <? size_of l).
Proof.
  unfold filled, size_of.
  destruct (from_the_end l) as [->|[[a ->]|[(a & b & ->)|(pre & c & a & b & ->)]]].
  - reflexivity.
  - reflexivity.
  - unfold checkCRLF, is_byte, at_; simpl.
    destruct (Ascii.eqb a CR), (Ascii.eqb b LF); reflexivity.
  - rewrite well_formed_app, length_app. simpl length.
    unfold checkCRLF. rewrite <- !app_assoc.
    destruct (Z.eqb_spec (Z.of_nat (length pre + 3)) 2); [lia|].
    cbn [andb].
    replace (Z.of_nat (length pre + 3) - 2) with (Z.of_nat (length pre) + 1)
      by lia.
    replace (Z.of_nat (length pre + 3) - 1) with (Z.of_nat (length pre) + 2)
      by lia.
    replace (Z.of_nat (length pre + 3) - 3) with (Z.of_nat (length pre) + 0)
      by lia.
    rewrite !is_byte_app, at_app by lia.
    unfold is_byte, at_; simpl.
    destruct (Z.ltb_spec 3 (Z.of_nat (length pre + 3))) as [Hlong|Hshort].
    + destruct (Ascii.eqb a CR), (Ascii.eqb b LF), (isspace c); reflexivity.
    + destruct (Ascii.eqb a CR), (Ascii.eqb b LF), (isspace c); reflexivity.
Qed.

Lemma checkCRLFSimple_spec (l : bytes) :
  checkCRLFSimple (filled l) (size_of l) = ends_in_crlf l.
Proof.
  unfold filled, size_of.
  destruct (from_the_end l) as [->|[[a ->]|[(a & b & ->)|(pre & c & a & b & ->)]]].
  - reflexivity.
  - reflexivity.
  - reflexivity.
  - rewrite ends_in_crlf_app, length_app. simpl length.
    unfold checkCRLFSimple. rewrite <- !app_assoc.
    destruct (Z.ltb_spec 1 (Z.of_nat (length pre + 3))); [|lia].
    cbn [andb].
    replace (Z.of_nat (length pre + 3) - 2) with (Z.of_nat (length pre) + 1)
      by lia.
    replace (Z.of_nat (length pre + 3) - 1) with (Z.of_nat (length pre) + 2)
      by lia.
    rewrite !is_byte_app by lia. reflexivity.
Qed.

Lemma well_formed_ends l : well_formed l = true -> ends_in_crlf l = true.
Proof.
  unfold well_formed, ends_in_crlf.
  destruct (rev l) as [|b [|a [|c r]]]; try discriminate.
  destruct (Ascii.eqb a CR), (Ascii.eqb b LF); simpl; congruence.
Qed.

(** A line without an LF as last octet passes neither check. *)
Lemma ends_in_crlf_last l : ends_in_crlf l = true -> last l = Some LF.
Proof.
  unfold ends_in_crlf. rewrite <- (rev_involutive l) at 2.
  destruct (rev l) as [|b [|a r]]; try discriminate.
  destruct (Ascii.eqb a CR); [|discriminate].
  destruct (Ascii.eqb_spec b LF) as [->|]; [|discriminate].
  intros _. simpl. rewrite last_snoc. reflexivity.
Qed.

End LineFacts.

(** ** Command words *)

Module CommandFacts.
Import Libc Line Rules LibcFacts.

Lemma code_inj x y : code x = code y -> x = y.
Proof.
  unfold code. intros H. apply N2Z.inj in H.
  rewrite <- (ascii_N_embedding x), <- (ascii_N_embedding y), H.
  reflexivity.
Qed.

Lemma tolower_NUL x : tolower x = NUL -> x = NUL.
Proof.
  destruct x as [[] [] [] [] [] [] [] []]; vm_compute; congruence.
Qed.

(** Two strings compare equal exactly when they fold to the same
    string. *)
Lemma strcasecmp_0 a b :
  no_nul b = true -> strcasecmp a b = 0 ->
  map tolower (cstr a) = map tolower b.
Proof.
  revert b; induction a as [|x a IH]; intros [|y b]; simpl.
  - reflexivity.
  - rewrite andb_true_iff, negb_true_iff. intros [Hy _] H0.
    assert (tolower y = NUL) as Hn by (apply code_inj; change (code NUL) with 0; lia).
    apply tolower_NUL in Hn. subst y. discriminate.
  - intros _ H0.
    assert (tolower x = NUL) as Hn by (apply code_inj; change (code NUL) with 0; lia).
    apply tolower_NUL in Hn. subst x. reflexivity.
  - rewrite andb_true_iff, negb_true_iff. intros [Hy Hb].
    destruct (Z.eqb_spec (code (tolower x)) (code (tolower y))) as [He|Hne];
      [|lia].
    apply code_inj in He.
    destruct (Ascii.eqb_spec x NUL) as [->|Hx].
    + symmetry in He. apply tolower_NUL in He. subst y. discriminate.
    + intros H0. simpl. rewrite He, (IH b Hb H0). reflexivity.
Qed.

Lemma strcasecmp_fold a b :
  map tolower a = map tolower b -> strcasecmp a b = 0.
Proof.
  revert b; induction a as [|x a IH]; intros [|y b]; simpl;
    try discriminate; [reflexivity|].
  intros [= Hxy Hab]. rewrite Hxy, Z.eqb_refl.
  destruct (Ascii.eqb x NUL); [reflexivity | apply IH, Hab].
Qed.

(** A command word matches at most one name. *)
Lemma strcasecmp_other c n m :
  strcasecmp c (lit n) = 0 -> distinct_names n m = true ->
  (strcasecmp c (lit m) =? 0) = false.
Proof.
  unfold distinct_names. rewrite !andb_true_iff, negb_true_iff.
  intros Hn [[Nn Nm] Hd].
  destruct (Z.eqb_spec (strcasecmp c (lit m)) 0) as [Hm|]; [|reflexivity].
  apply strcasecmp_0 in Hn, Hm; trivial.
  rewrite (strcasecmp_fold (lit n) (lit m)) in Hd by congruence.
  discriminate.
Qed.

(** Settle every test of the command word [c] in the goal, from the
    name it is known to match. *)
Ltac settle_cmd H :=
  match type of H with
  | strcasecmp ?c (lit ?n) = 0 =>
      repeat match goal with
        | |- context [strcasecmp c (lit ?m) =? 0] =>
            first
              [ constr_eq m n; rewrite H; change (0 =? 0) with true
              | rewrite (strcasecmp_other c n m H) by (vm_compute; reflexivity) ]
        end
  end.

(** A word [sscanf] finds that is longer than [command] runs over it. *)
Lemma scan_command_long old reply w :
  sscanf_s reply = Some w -> 40 < Z.of_nat (length w) ->
  scan_command old reply = Outcome.Fault Outcome.OutOfBounds.
Proof.
  unfold scan_command, strcpy. intros -> Hlen.
  destruct (Z.leb_spec (Z.of_nat (length w)) 40); [lia|reflexivity].
Qed.

(** Once a '<' is found in a string, the bounded scan of its first word
    converts something: the [None] case of [checkSyntax] does not arise. *)
Lemma scan_finds_word (s : bytes) (c : ascii) :
  c ∈ s -> isspace c = false -> scan_word (skip_ws s) <> [].
Proof.
  induction s as [|x s IH]; intros Hin Hc; [inversion Hin|].
  cbn [skip_ws]. destruct (isspace x) eqn:Hx.
  - apply IH; [|exact Hc]. apply elem_of_cons in Hin as [->|Hin];
      [congruence | exact Hin].
  - cbn [scan_word]. rewrite Hx. discriminate.
Qed.

Lemma keyword_scanned (width : nat) (str : bytes) (openBracket : nat) :
  (0 < width)%nat -> strchr str "<" = Some openBracket ->
  sscanf_ws width str <> None.
Proof.
  unfold strchr, sscanf_ws. intros Hw Hopen.
  apply index_of_Some in Hopen as [_ Hat].
  apply list_elem_of_lookup_2 in Hat.
  pose proof (scan_finds_word _ _ Hat eq_refl) as Hword.
  destruct (scan_word (skip_ws (cstr str))) as [|x w]; [congruence|].
  destruct width; [lia|]. discriminate.
Qed.

End CommandFacts.

(** ** SMTP: the order of commands *)

Module SmtpSequence.
Import Libc Outcome Line Smtpd Rules Fixtures LibcFacts CommandFacts.

Ltac name_cases H :=
  cbn [existsb] in H;
  repeat (apply orb_true_iff in H; destruct H as [H|H]);
  try discriminate H; apply String.eqb_eq in H; subst.

Section Session.

Variable MAX_USERNAME_SIZE : Z.
Variable is_valid_user : bytes -> option bytes -> bool.
Variable domainName : bytes.
Variable mkstemp : nat -> option nat.

Abbreviation handle_line :=
  (Smtpd.handle_line MAX_USERNAME_SIZE is_valid_user domainName mkstemp).

(** C9: a well-formed line whose command word is one for which the
    state mandates 503 is answered with 503 alone, so never with 250 OK,
    and leaves the session where it was. *)
Theorem bad_sequence_gets_503 (st : state) (reply : bytes) (reply_size : Z)
    (cmd : bytes) (name : string) :
  scan_command (command st) reply = Ok cmd ->
  strcasecmp cmd (lit name) = 0 ->
  checkCRLF reply reply_size = true ->
  mandates_503 (phase_of st) name = true ->
  handle_line st reply reply_size = Ok (Continue (set_command st cmd) [send503])
  /\ send250 ∉ [send503].
Proof.
  intros Hscan Hname Hcheck Hbad.
  split; [|intros H; apply list_elem_of_singleton in H; discriminate H].
  unfold Smtpd.handle_line. rewrite Hscan. cbn [bind].
  rewrite Hcheck. cbn [orb].
  unfold phase_of in Hbad. cbn [set_command received_data].
  destruct (received_data st); [discriminate|].
  unfold mail_state, rcpt_state, helo_state, initial_state, is_cmd.
  cbn [set_command received_mail received_rcpt received_helo command].
  destruct (received_mail st); [|destruct (received_rcpt st);
                                  [|destruct (received_helo st)]];
    name_cases Hbad; settle_cmd Hname; reflexivity.
Qed.

End Session.

Lemma bad_sequence_gets_503_witness :
  Smtpd.handle_line 64 (fun _ _ => true) (lit "host") (fun _ => Some 3%nat)
    greeted (lit "MAIL FROM:<a@x>" ++ [CR; LF; NUL]) 17
  = Ok (Continue (set_command greeted (lit "MAIL")) [send503]).
Proof.
  apply (bad_sequence_gets_503 64 (fun _ _ => true) (lit "host")
           (fun _ => Some 3%nat) greeted
           (lit "MAIL FROM:<a@x>" ++ [CR; LF; NUL]) 17 (lit "MAIL") "MAIL");
    vm_compute; reflexivity.
Defined.

End SmtpSequence.

(** ** POP3: the AUTHORIZATION state *)

Module PopAuthorization.
Import Libc Outcome Line User Popd Rules Fixtures LibcFacts CommandFacts.

Section Session.

Variable MAX_USERNAME_SIZE : Z.
Variable is_valid_user : bytes -> option bytes -> bool.
Variable load_user_mail : bytes -> mail_list.
Variable open_mail : mail_item -> option bytes.

Abbreviation handle_line :=
  (Popd.handle_line MAX_USERNAME_SIZE is_valid_user load_user_mail open_mail).

Lemma strcpy_fits cap s :
  Z.of_nat (length s) <= cap -> strcpy cap s = Some s.
Proof.
  unfold strcpy. intros H.
  destruct (Z.leb_spec (Z.of_nat (length s)) cap); [reflexivity|lia].
Qed.


End Session.



End PopAuthorization.

(** ** POP3: DELE and RSET *)

Module PopTransaction.
Import Libc Outcome Line User Popd Rules Fixtures LibcFacts CommandFacts.

Lemma reset_after_mark l pos :
  reset_mail_list_deleted_flag (mark_mail_item_deleted l pos)
  = reset_mail_list_deleted_flag l.
Proof.
  unfold reset_mail_list_deleted_flag, mark_mail_item_deleted.
  generalize (Z.to_nat pos) as i.
  induction l as [|m l IH]; intros [|i]; simpl; try reflexivity.
  f_equal. apply IH.
Qed.

Lemma count_after_reset l :
  get_mail_count (reset_mail_list_deleted_flag l) = Z.of_nat (length l).
Proof.
  unfold get_mail_count, reset_mail_list_deleted_flag. f_equal.
  induction l as [|m l IH]; [reflexivity|].
  rewrite fmap_cons, filter_cons_True by reflexivity.
  cbn [length]. f_equal. exact IH.
Qed.

Lemma size_after_reset l :
  get_mail_list_size (reset_mail_list_deleted_flag l) = total_size l.
Proof.
  unfold get_mail_list_size, reset_mail_list_deleted_flag, total_size.
  induction l as [|m l IH]; [reflexivity|].
  rewrite fmap_cons. cbn [foldr clear_deleted deleted item_size].
  f_equal. exact IH.
Qed.

Lemma count_none_deleted l :
  none_deleted l = true -> get_mail_count l = Z.of_nat (length l).
Proof.
  unfold get_mail_count. intros H. f_equal.
  induction l as [|m l IH]; [reflexivity|].
  cbn [none_deleted forallb] in H.
  apply andb_true_iff in H as [Hm Hl]. apply negb_true_iff in Hm.
  rewrite filter_cons_True by exact Hm.
  cbn [length]. f_equal. apply IH, Hl.
Qed.

Lemma size_none_deleted l :
  none_deleted l = true -> get_mail_list_size l = total_size l.
Proof.
  unfold get_mail_list_size, total_size.
  induction l as [|m l IH]; [reflexivity|].
  cbn [none_deleted forallb foldr].
  rewrite andb_true_iff, negb_true_iff. intros [-> Hl].
  f_equal. apply IH, Hl.
Qed.

Section Session.

Variable MAX_USERNAME_SIZE : Z.
Variable is_valid_user : bytes -> option bytes -> bool.
Variable load_user_mail : bytes -> mail_list.
Variable open_mail : mail_item -> option bytes.

Abbreviation handle_line :=
  (Popd.handle_line MAX_USERNAME_SIZE is_valid_user load_user_mail open_mail).

(** STAT, LIST without argument and RSET all open their reply with
    [sendCountPositive] on the count and the size of the snapshot. *)
Lemma count_replies (st : state) (reply cmd : bytes) :
  authorization st = false -> transaction st = true ->
  checkCRLF reply 6 = true ->
  scan_command (command st) reply = Ok cmd ->
  let l := mailList st in
  let l' := reset_mail_list_deleted_flag l in
  (strcasecmp cmd (lit "STAT") = 0 ->
   handle_line st reply 6
   = Ok (Continue (set_command st cmd)
           [sendCountPositive (get_mail_count l) (get_mail_list_size l)]))
  /\ (strcasecmp cmd (lit "LIST") = 0 ->
      handle_line st reply 6
      = Ok (Continue (set_command st cmd)
              (sendCountPositive (get_mail_count l) (get_mail_list_size l)
                 :: list_lines l (mailCount st) ++ [endOfList])))
  /\ (strcasecmp cmd (lit "RSET") = 0 ->
      handle_line st reply 6
      = Ok (Continue (set_mailList (set_command st cmd) l')
              [sendCountPositive (get_mail_count l')
                 (get_mail_list_size l')])).
Proof.
  intros Hauth Htrans Hcheck Hscan l l'.
  unfold Popd.handle_line. rewrite Hscan. cbn [bind].
  rewrite Hcheck. cbn [set_command authorization transaction].
  rewrite Hauth, Htrans. unfold transaction_state, is_cmd.
  cbn [set_command command mailList mailCount].
  split; [|split]; intros Hcmd; settle_cmd Hcmd; reflexivity.
Qed.

(** DELE, whatever its argument, then RSET: the reply to RSET carries
    the count and the size of the whole snapshot. *)
Lemma dele_then_rset (st : state) (dele : bytes) (dele_size : Z)
    (rset cmd1 cmd2 : bytes) :
  authorization st = false -> transaction st = true ->
  checkCRLF dele dele_size = true ->
  scan_command (command st) dele = Ok cmd1 ->
  strcasecmp cmd1 (lit "DELE") = 0 ->
  checkCRLF rset 6 = true ->
  scan_command cmd1 rset = Ok cmd2 ->
  strcasecmp cmd2 (lit "RSET") = 0 ->
  exists st1 sent1 st2,
    handle_line st dele dele_size = Ok (Continue st1 sent1)
    /\ handle_line st1 rset 6
       = Ok (Continue st2
               [sendCountPositive (Z.of_nat (length (mailList st)))
                  (total_size (mailList st))])
    /\ get_mail_count (mailList st2) = Z.of_nat (length (mailList st))
    /\ get_mail_list_size (mailList st2) = total_size (mailList st).
Proof.
  intros Hauth Htrans Hcheck1 Hscan1 Hdele Hcheck2 Hscan2 Hrset.
  assert (Hturn1 : exists st1 sent1,
             handle_line st dele dele_size = Ok (Continue st1 sent1)
             /\ authorization st1 = false /\ transaction st1 = true
             /\ command st1 = cmd1
             /\ reset_mail_list_deleted_flag (mailList st1)
                = reset_mail_list_deleted_flag (mailList st)).
  { unfold Popd.handle_line. rewrite Hscan1. cbn [bind].
    rewrite Hcheck1. cbn [set_command authorization transaction].
    rewrite Hauth, Htrans. unfold transaction_state, is_cmd.
    cbn [set_command command mailList]. settle_cmd Hdele. cbn [andb].
    destruct (numeric_arg dele) as [index|].
    - destruct (get_mail_item (mailList st) (to_unsigned (index - 1))).
      + do 2 eexists. split; [reflexivity|].
        cbn. rewrite reset_after_mark. auto.
      + do 2 eexists. split; [reflexivity|]. cbn. auto.
    - do 2 eexists. split; [reflexivity|]. cbn. auto. }
  destruct Hturn1 as (st1 & sent1 & Hrun1 & Hauth1 & Htrans1 & Hcmd1 & Hsame).
  exists st1, sent1. eexists. split; [exact Hrun1|].
  unfold Popd.handle_line. rewrite Hcmd1, Hscan2. cbn [bind].
  rewrite Hcheck2. cbn [set_command authorization transaction].
  rewrite Hauth1, Htrans1. unfold transaction_state, is_cmd.
  cbn [set_command command mailList]. settle_cmd Hrset. cbn [andb].
  rewrite Hsame, count_after_reset, size_after_reset.
  split; [reflexivity|]. cbn [set_mailList mailList].
  rewrite count_after_reset, size_after_reset. auto.
Qed.

(** C6, as the code has it: in the TRANSACTION state with no item
    marked deleted, DELE (whatever its index) followed by RSET brings the
    count and the total size back to what they were before the DELE,
    and the reply to RSET reports them. *)
Theorem dele_rset_restores (st : state) (dele : bytes) (dele_size : Z)
    (rset cmd1 cmd2 : bytes) :
  authorization st = false -> transaction st = true ->
  none_deleted (mailList st) = true ->
  checkCRLF dele dele_size = true ->
  scan_command (command st) dele = Ok cmd1 ->
  strcasecmp cmd1 (lit "DELE") = 0 ->
  checkCRLF rset 6 = true ->
  scan_command cmd1 rset = Ok cmd2 ->
  strcasecmp cmd2 (lit "RSET") = 0 ->
  exists st1 sent1 st2,
    handle_line st dele dele_size = Ok (Continue st1 sent1)
    /\ handle_line st1 rset 6
       = Ok (Continue st2
               [sendCountPositive (get_mail_count (mailList st))
                  (get_mail_list_size (mailList st))])
    /\ get_mail_count (mailList st2) = get_mail_count (mailList st)
    /\ get_mail_list_size (mailList st2) = get_mail_list_size (mailList st).
Proof.
  intros Hauth Htrans Hnone Hcheck1 Hscan1 Hdele Hcheck2 Hscan2 Hrset.
  rewrite (count_none_deleted _ Hnone), (size_none_deleted _ Hnone).
  eapply dele_then_rset; eassumption.
Qed.

End Session.

(** The session of the "happy path" scenario: alice with one message of
    100 octets. *)
Example scenario_S1 :
  Server.transcript
    (Server.handle_client
       (Popd.handle_line 64 alice_only
          alice_mail no_file)
       16 sendWelcome fresh
       (Server.lines ["USER alice"; "PASS pw"; "STAT"; "LIST"; "DELE 1";
                      "STAT"; "RSET"; "QUIT"]%string)
       None)
  = Some [sendWelcome; sendPositive; sendPositive;
          lit "+OK 1 100" ++ [CR; LF];
          lit "+OK 1 100" ++ [CR; LF]; lit "1 100" ++ [CR; LF]; endOfList;
          sendPositive;
          lit "+OK 0 0" ++ [CR; LF];
          lit "+OK 1 100" ++ [CR; LF];
          sendPositive].
Proof. vm_compute. reflexivity. Qed.

Lemma dele_rset_restores_witness :
  exists st1 sent1 st2,
    Popd.handle_line 64 alice_only
      alice_mail no_file
      alice_in (lit "DELE 1" ++ [CR; LF; NUL]) 8 = Ok (Continue st1 sent1)
    /\ Popd.handle_line 64 alice_only
         alice_mail no_file
         st1 (lit "RSET" ++ [CR; LF; NUL]) 6
       = Ok (Continue st2
               [sendCountPositive (get_mail_count (mailList alice_in))
                  (get_mail_list_size (mailList alice_in))])
    /\ get_mail_count (mailList st2) = get_mail_count (mailList alice_in)
    /\ get_mail_list_size (mailList st2)
       = get_mail_list_size (mailList alice_in).
Proof.
  apply (dele_rset_restores 64 alice_only
           alice_mail no_file
           alice_in (lit "DELE 1" ++ [CR; LF; NUL]) 8
           (lit "RSET" ++ [CR; LF; NUL]) (lit "DELE") (lit "RSET"));
    vm_compute; reflexivity.
Defined.

(** C6 as stated fails: with message 2 already deleted, STAT reports 1
    message of 100 octets; DELE 1 followed by RSET then reports 2 messages
    of 300 octets, not the 1 and 100 that held before the DELE. *)
Lemma rset_restores_earlier_deletions :
  Server.transcript
    (Server.handle_client
       (Popd.handle_line 64 alice_only two_mails
          no_file)
       16 sendWelcome fresh
       (Server.lines ["USER alice"; "PASS pw"; "DELE 2"; "STAT"; "DELE 1";
                      "RSET"]%string)
       None)
  = Some [sendWelcome; sendPositive; sendPositive;
          sendPositive;
          lit "+OK 1 100" ++ [CR; LF];
          sendPositive;
          lit "+OK 2 300" ++ [CR; LF]].
Proof. vm_compute. reflexivity. Qed.

End PopTransaction.

(** ** Lines that do not pass the check *)

Module Rejection.
Import Libc Outcome Line SocketBuffer Rules LibcFacts SocketBufferFacts
  LineFacts CommandFacts.

(** A line that fails [checkCRLF] is answered -ERR by the POP3 session,
    whatever its state, once the command word is scanned. *)
Lemma pop_rejects M valid load open_mail (st : Popd.state) reply size cmd :
  scan_command (Popd.command st) reply = Ok cmd ->
  checkCRLF reply size = false ->
  Popd.handle_line M valid load open_mail st reply size
  = Ok (Continue (Popd.set_command st cmd) [Popd.sendNegative]).
Proof.
  intros Hscan Hcheck. unfold Popd.handle_line.
  rewrite Hscan. cbn [bind]. rewrite Hcheck. reflexivity.
Qed.

(** The same for the SMTP session and 500; during DATA the line must
    also fail [checkCRLFSimple]. *)
Lemma smtp_rejects M valid domain mkstemp (st : Smtpd.state) reply size cmd :
  scan_command (Smtpd.command st) reply = Ok cmd ->
  checkCRLF reply size = false ->
  Smtpd.received_data st && checkCRLFSimple reply size = false ->
  Smtpd.handle_line M valid domain mkstemp st reply size
  = Ok (Continue (Smtpd.set_command st cmd) [Smtpd.send500]).
Proof.
  intros Hscan Hcheck Hsimple. unfold Smtpd.handle_line.
  rewrite Hscan. cbn [bind Smtpd.set_command Smtpd.received_data].
  rewrite Hcheck, Hsimple. reflexivity.
Qed.

(** Octets without an LF pass neither check. *)
Lemma no_LF_fails_checks (l : bytes) :
  LF ∉ l ->
  checkCRLF (filled l) (size_of l) = false
  /\ checkCRLFSimple (filled l) (size_of l) = false.
Proof.
  intros Hno.
  assert (Hends : ends_in_crlf l = false).
  { destruct (ends_in_crlf l) eqn:He; [|reflexivity].
    apply ends_in_crlf_last in He. apply last_Some in He as [pre ->].
    exfalso. apply Hno. apply elem_of_app. right. left. }
  rewrite checkCRLF_spec, checkCRLFSimple_spec. split; [|exact Hends].
  destruct (well_formed l) eqn:Hw; [|reflexivity].
  apply well_formed_ends in Hw. congruence.
Qed.

(** When [max_bytes] octets arrive without an LF and their first word
    fits [command], both sessions reject the line the reader returns, in
    every state, and change nothing but [command]. *)
Lemma overlong_line_rejected_if_word_fits (sb : socket_buffer) (sock : socket)
    (cmd : bytes) :
  (avail_data sb <= max_bytes sb)%nat ->
  LF ∉ take (max_bytes sb) (buf sb ++ pending sock) ->
  (max_bytes sb <= length (buf sb ++ pending sock))%nat ->
  (forall old,
      scan_command old (filled (take (max_bytes sb) (buf sb ++ pending sock)))
      = Ok cmd) ->
  exists r,
    sb_read_line sb sock = Some r
    /\ rv r = Z.of_nat (max_bytes sb)
    /\ (forall M valid load open_mail st,
          Popd.handle_line M valid load open_mail st (out r) (rv r)
          = Ok (Continue (Popd.set_command st cmd) [Popd.sendNegative]))
    /\ (forall M valid domain mkstemp st,
          Smtpd.handle_line M valid domain mkstemp st (out r) (rv r)
          = Ok (Continue (Smtpd.set_command st cmd) [Smtpd.send500])).
Proof.
  intros Hle Hno Hfull Hscan.
  destruct (sb_read_line_full sb sock Hle Hno Hfull) as (r & Hr & Hrv & Hout).
  exists r. split; [exact Hr|]. split; [exact Hrv|].
  set (l := take (max_bytes sb) (buf sb ++ pending sock)) in *.
  assert (Hsize : rv r = size_of l).
  { rewrite Hrv. unfold size_of, l. rewrite length_take. f_equal. lia. }
  destruct (no_LF_fails_checks l Hno) as [Hc Hs].
  rewrite Hsize. change (out r = filled l) in Hout. rewrite Hout. split.
  - intros. apply pop_rejects; [apply Hscan | exact Hc].
  - intros. apply smtp_rejects; [apply Hscan | exact Hc |].
    rewrite Hs. apply andb_false_r.
Qed.

(** C2, at the line of three octets "a" CR LF: it is well formed by the
    rule of the specification, [checkCRLF] refuses it, and both sessions
    answer it as a line that is not well formed. *)
Theorem three_octet_line_refused :
  well_formed (lit "a" ++ [CR; LF]) = true
  /\ checkCRLF (filled (lit "a" ++ [CR; LF])) 3 = false
  /\ (forall M valid load open_mail st,
        Popd.handle_line M valid load open_mail st
          (filled (lit "a" ++ [CR; LF])) 3
        = Ok (Continue (Popd.set_command st (lit "a")) [Popd.sendNegative]))
  /\ (forall M valid domain mkstemp st,
        Smtpd.received_data st = false ->
        Smtpd.handle_line M valid domain mkstemp st
          (filled (lit "a" ++ [CR; LF])) 3
        = Ok (Continue (Smtpd.set_command st (lit "a")) [Smtpd.send500])).
Proof.
  split; [reflexivity|]. split; [reflexivity|]. split.
  - intros. apply pop_rejects; reflexivity.
  - intros M valid domain mkstemp st Hdata.
    apply smtp_rejects; [reflexivity | reflexivity |].
    rewrite Hdata. reflexivity.
Qed.

(** C7, at 1100 octets "a" arriving in one segment: the reader returns
    the first 1024 of them, and the [sscanf] into [command], which comes
    before the CRLF check, runs over the 41 octets of the array in both
    sessions. *)
Theorem overlong_line_overflows_command :
  exists r,
    sb_read_line (sb_create 1024) [Data (repeat "a"%char 1100)] = Some r
    /\ rv r = 1024
    /\ out r = repeat "a"%char 1024 ++ [NUL]
    /\ checkCRLF (out r) (rv r) = false
    /\ (forall M valid load open_mail st,
          Popd.handle_line M valid load open_mail st (out r) (rv r)
          = Fault OutOfBounds)
    /\ (forall M valid domain mkstemp st,
          Smtpd.handle_line M valid domain mkstemp st (out r) (rv r)
          = Fault OutOfBounds).
Proof.
  eexists. split; [vm_compute; reflexivity|]. cbn [rv out].
  split; [reflexivity|]. split; [reflexivity|].
  split; [vm_compute; reflexivity|].
  assert (Hscan : forall old,
             scan_command old (repeat "a"%char 1024 ++ [NUL])
             = Fault OutOfBounds).
  { intros old. apply (scan_command_long _ _ (repeat "a"%char 1024)).
    - vm_compute. reflexivity.
    - rewrite repeat_length. lia. }
  split; intros.
  - unfold Popd.handle_line. rewrite Hscan. reflexivity.
  - unfold Smtpd.handle_line. rewrite Hscan. reflexivity.
Qed.

End Rejection.

(** ** SMTP: recipients and DATA *)

Module SmtpData.
Import Libc Outcome Line Smtpd Rules Fixtures LibcFacts LineFacts CommandFacts.

Lemma terminator_test (l : bytes) :
  strstr_at_start (filled l) (crlf ".") && (size_of l =? 3) = true
  <-> l = dot_line.
Proof.
  split.
  - rewrite andb_true_iff. intros [Hstart Hsize].
    apply Z.eqb_eq in Hsize. unfold size_of in Hsize.
    destruct l as [|a [|b [|c [|d l]]]]; simpl in Hsize; try lia.
    unfold strstr_at_start, filled in Hstart.
    change (crlf ".") with ["."%char; CR; LF] in Hstart.
    cbn [app cstr] in Hstart.
    destruct (Ascii.eqb a NUL); [discriminate|].
    destruct (Ascii.eqb b NUL);
      [cbn [starts_with] in Hstart; rewrite andb_false_r in Hstart;
       discriminate|].
    destruct (Ascii.eqb c NUL);
      [cbn [starts_with] in Hstart; rewrite !andb_false_r in Hstart;
       discriminate|].
    cbn [starts_with] in Hstart.
    apply andb_true_iff in Hstart as [Ha Hstart].
    apply andb_true_iff in Hstart as [Hb Hstart].
    apply andb_true_iff in Hstart as [Hc _].
    apply Ascii.eqb_eq in Ha, Hb, Hc. subst. reflexivity.
  - intros ->. reflexivity.
Qed.

Section Session.

Variable MAX_USERNAME_SIZE : Z.
Variable is_valid_user : bytes -> option bytes -> bool.
Variable domainName : bytes.
Variable mkstemp : nat -> option nat.

Abbreviation handle_line :=
  (Smtpd.handle_line MAX_USERNAME_SIZE is_valid_user domainName mkstemp).
Abbreviation save_all := (Smtpd.save_all mkstemp).

(** The loop over the recipients calls [mkstemp] once for each, and
    [success] ends up as what the last call returned. *)
Lemma save_all_last rows : forall dat success s,
  rows <> [] ->
  (save_all rows dat success s).1
  = fd_or_error (mkstemp (mkstemp_calls s + length rows - 1))
  /\ mkstemp_calls (save_all rows dat success s).2
     = (mkstemp_calls s + length rows)%nat.
Proof.
  induction rows as [|toAddr rows IH]; intros dat success s Hne;
    [congruence|].
  cbn [Smtpd.save_all]. unfold saveEmail.
  destruct rows as [|next rows].
  - cbn [Smtpd.save_all length].
    replace (mkstemp_calls s + 1 - 1)%nat with (mkstemp_calls s) by lia.
    destruct (mkstemp (mkstemp_calls s)); cbn; split; try reflexivity; lia.
  - destruct (mkstemp (mkstemp_calls s)).
    all: match goal with
         | |- context [Smtpd.save_all mkstemp ?r ?d ?z ?s'] =>
             destruct (IH d z s') as [Hfst Hcalls]; [discriminate|];
             rewrite Hfst, Hcalls
         end.
    all: cbn [mkstemp_calls length]; split; [f_equal; f_equal; lia | lia].
Qed.

(** During DATA the relaxed check alone decides. *)
Lemma data_gate (l : bytes) :
  checkCRLF (filled l) (size_of l) || (true && checkCRLFSimple (filled l) (size_of l))
  = ends_in_crlf l.
Proof.
  rewrite checkCRLF_spec, checkCRLFSimple_spec. cbn [andb].
  destruct (well_formed l) eqn:Hw; [|reflexivity].
  rewrite (well_formed_ends l Hw). apply orb_true_r.
Qed.

(** C5, as the code has it: during DATA, the line "." CR LF ends the
    message and only that line does; any other line that ends in CR LF
    (white space before the CR and the empty line included), once its
    command word is scanned and if it fits the buffer of 64000 octets, is
    appended to the body as a C string and is not answered: with its
    CR LF when it holds no zero octet, up to its first zero octet
    otherwise; a line that does not end in CR LF is answered 500 and not
    appended. *)
Theorem data_mode_lines (st : state) :
  received_data st = true ->
  (exists st' msg,
      handle_line st (filled dot_line) 3 = Ok (Continue st' [msg])
      /\ received_data st' = false /\ rcpt_count st' = 0
      /\ (msg = send250 \/ msg = send451))
  /\ (forall l t,
        handle_line st (filled l) (size_of l) = Ok t ->
        received_data (state_of t) = false -> l = dot_line)
  /\ (forall l cmd,
        ends_in_crlf l = true -> l <> dot_line ->
        scan_command (command st) (filled l) = Ok cmd ->
        strlen (data st) + strlen l <= 64000 ->
        handle_line st (filled l) (size_of l)
        = Ok (Continue
                (set_data (set_command st cmd) (cstr (data st) ++ cstr l)) [])
        /\ (NUL ∉ l -> cstr l = l))
  /\ (forall l cmd,
        ends_in_crlf l = false ->
        scan_command (command st) (filled l) = Ok cmd ->
        handle_line st (filled l) (size_of l)
        = Ok (Continue (set_command st cmd) [send500])).
Proof.
  intros Hdata. split; [|split; [|split]].
  - unfold Smtpd.handle_line.
    change (scan_command (command st) (filled dot_line)) with (Ok (lit ".")).
    cbn [bind set_command received_data]. rewrite Hdata.
    change 3 with (size_of dot_line). rewrite data_gate.
    change (ends_in_crlf dot_line) with true. cbv iota.
    unfold data_state.
    rewrite (proj2 (terminator_test dot_line) eq_refl).
    cbn [set_command rcpt_count toEmail data spool].
    destruct (Smtpd.save_all mkstemp _ _ _ _) as [success s].
    destruct (success =? -1); do 2 eexists;
      (split; [reflexivity|]); cbn; auto.
  - intros l t. unfold Smtpd.handle_line.
    destruct (scan_command (command st) (filled l)) as [cmd|f];
      [|discriminate].
    cbn [bind set_command received_data]. rewrite Hdata, data_gate.
    destruct (ends_in_crlf l).
    + unfold data_state.
      destruct (strstr_at_start (filled l) (crlf ".") && (size_of l =? 3))
        eqn:Hdot.
      * intros _ _. apply terminator_test, Hdot.
      * destruct (64000 <? _); [discriminate|].
        intros [= <-]. cbn. congruence.
    + intros [= <-]. cbn. congruence.
  - intros l cmd Hends Hother Hscan Hroom. split; [|apply cstr_id].
    unfold Smtpd.handle_line. rewrite Hscan.
    cbn [bind set_command received_data]. rewrite Hdata, data_gate, Hends.
    unfold data_state.
    destruct (strstr_at_start (filled l) (crlf ".") && (size_of l =? 3))
      eqn:Hdot; [apply terminator_test in Hdot; contradiction|].
    cbn [set_command data]. unfold strlen in *. unfold filled.
    rewrite cstr_filled.
    destruct (Z.ltb_spec 64000
                (Z.of_nat (length (cstr (data st)))
                 + Z.of_nat (length (cstr l))));
      [lia | reflexivity].
  - intros l cmd Hends Hscan.
    unfold Smtpd.handle_line. rewrite Hscan.
    cbn [bind set_command received_data]. rewrite Hdata, data_gate, Hends.
    reflexivity.
Qed.

(** The reply that ends DATA is decided by the last call to [mkstemp]
    alone: 451 when that one fails, 250 OK otherwise. *)
Lemma data_end_reply (st : state) :
  received_data st = true ->
  0 < rcpt_count st <= Z.of_nat (length (toEmail st)) ->
  exists st',
    handle_line st (filled dot_line) 3
    = Ok (Continue st'
            [match
                mkstemp (mkstemp_calls (spool st)
                         + Z.to_nat (rcpt_count st) - 1)
              with
              | Some _ => send250
              | None => send451
              end])
    /\ mkstemp_calls (spool st')
       = (mkstemp_calls (spool st) + Z.to_nat (rcpt_count st))%nat.
Proof.
  intros Hdata Hcount. unfold Smtpd.handle_line.
  change (scan_command (command st) (filled dot_line)) with (Ok (lit ".")).
  cbn [bind set_command received_data]. rewrite Hdata.
  change 3 with (size_of dot_line). rewrite data_gate.
  change (ends_in_crlf dot_line) with true. cbv iota.
  unfold data_state. rewrite (proj2 (terminator_test dot_line) eq_refl).
  cbn [set_command rcpt_count toEmail data spool].
  set (rows := take (Z.to_nat (rcpt_count st)) (toEmail st)).
  assert (Hlen : length rows = Z.to_nat (rcpt_count st))
    by (unfold rows; rewrite length_take; lia).
  destruct (save_all_last rows (data st) 0 (spool st)) as [Hfst Hcalls].
  { intros Hnil. rewrite Hnil in Hlen. simpl in Hlen. lia. }
  rewrite Hlen in Hfst, Hcalls.
  destruct (Smtpd.save_all mkstemp rows (data st) 0 (spool st))
    as [success s].
  cbn [fst snd] in Hfst, Hcalls. subst success.
  destruct (mkstemp (mkstemp_calls (spool st) + Z.to_nat (rcpt_count st) - 1))
    as [fd|]; cbn [fd_or_error].
  - destruct (Z.eqb_spec (Z.of_nat fd) (-1)); [lia|].
    eexists; split; [reflexivity | exact Hcalls].
  - eexists; split; [reflexivity | exact Hcalls].
Qed.

(** No RCPT is refused for want of room: with the 30 rows of [toEmail]
    taken, the next recipient that resolves is written past the array. *)
Lemma rcpt_beyond_capacity (st : state) (reply : bytes) (reply_size : Z)
    (cmd rcptArgs email : bytes) :
  received_data st = false -> received_mail st = false ->
  received_rcpt st = true -> 30 <= rcpt_count st ->
  checkCRLF reply reply_size = true ->
  scan_command (command st) reply = Ok cmd ->
  strcasecmp cmd (lit "RCPT") = 0 ->
  retrieveArgs reply = Some rcptArgs ->
  checkRcptSyntax rcptArgs (strlen rcptArgs) = true ->
  retrieveEmail rcptArgs = Ok email ->
  is_valid_user email None = true ->
  handle_line st reply reply_size = Fault OutOfBounds.
Proof.
  intros Hdata Hmail Hrcpt Hfull Hcheck Hscan Hcmd Hargs Hsyntax Hemail Hvalid.
  unfold Smtpd.handle_line. rewrite Hscan. cbn [bind].
  rewrite Hcheck. cbn [orb set_command received_data received_mail
                         received_rcpt].
  rewrite Hdata, Hmail, Hrcpt. unfold rcpt_state, rcpt_command, is_cmd.
  cbn [set_command command]. settle_cmd Hcmd. cbn [andb orb]. rewrite Hargs, Hsyntax, Hemail. cbn [bind].
  rewrite Hvalid. unfold store_rcpt. cbn [set_command rcpt_count].
  destruct (Z.leb_spec 30 (rcpt_count st)); [|lia].
  rewrite orb_true_r. reflexivity.
Qed.

End Session.

Example in_data_reached :
  Server.handle_client
    (Smtpd.handle_line 64 alice_and_bob (lit "host") always)
    16 (sendWelcome (lit "host")) greeted
    (Server.lines ["HELO client"; "MAIL FROM:<a@x>"; "RCPT TO:<bob>";
                   "DATA"]%string)
    None
  = Some (Ok (in_data,
              Server.mk_conn [] (SocketBuffer.sb_create 1024)
                [sendWelcome (lit "host"); crlf "250 host"; send250; send250;
                 send354]
                None)).
Proof. vm_compute. reflexivity. Qed.

(** The session of the SMTP "happy path" scenario. *)
Example scenario_S4 :
  match
    Server.handle_client
      (Smtpd.handle_line 64 alice_and_bob (lit "host") always)
      16 (sendWelcome (lit "host")) greeted
      (Server.lines ["HELO client"; "MAIL FROM:<a@x>"; "RCPT TO:<bob>";
                     "DATA"; "Subject: hi"; ""; "body"; "."; "QUIT"]%string)
      None
  with
  | Some (Ok (st, c)) =>
      delivered (spool st)
      = [(lit "bob",
          lit "Subject: hi" ++ [CR; LF] ++ [CR; LF] ++ lit "body" ++ [CR; LF])]
      /\ Server.wire c
         = [sendWelcome (lit "host"); crlf "250 host"; send250; send250;
            send354; send250; send221]
  | _ => False
  end.
Proof. vm_compute. split; reflexivity. Qed.

Lemma data_mode_lines_witness :
  Smtpd.handle_line 64 alice_and_bob (lit "host") always in_data
    (filled (lit "Subject: hi " ++ [CR; LF])) 14
  = Ok (Continue
          (set_data (set_command in_data (lit "Subject:"))
             (cstr (data in_data) ++ cstr (lit "Subject: hi " ++ [CR; LF])))
          []).
Proof.
  destruct (data_mode_lines 64 alice_and_bob (lit "host") always in_data
              eq_refl) as (_ & _ & Happend & _).
  apply (Happend (lit "Subject: hi " ++ [CR; LF]) (lit "Subject:")).
  - reflexivity.
  - discriminate.
  - reflexivity.
  - vm_compute. discriminate.
Defined.

(** C5 as stated fails: the line "a" NUL "b" CR LF, received during
    DATA, ends in CR LF and is not the terminator, yet only its "a"
    reaches the body that is delivered. *)
Lemma zero_octet_cuts_the_line :
  match
    Server.handle_client
      (Smtpd.handle_line 64 alice_and_bob (lit "host") always)
      16 (sendWelcome (lit "host")) greeted
      (Server.lines ["HELO client"; "MAIL FROM:<a@x>"; "RCPT TO:<bob>";
                     "DATA"]%string
       ++ [SocketBuffer.Data (lit "a" ++ [NUL] ++ lit "b" ++ [CR; LF])]
       ++ Server.lines ["."]%string)
      None
  with
  | Some (Ok (st, c)) =>
      delivered (spool st) = [(lit "bob", lit "a")]
      /\ Server.wire c
         = [sendWelcome (lit "host"); crlf "250 host"; send250; send250;
            send354; send250]
  | _ => False
  end.
Proof. vm_compute. split; reflexivity. Qed.

(** C1, with two recipients of which the first cannot be served: the
    temporary file for alice cannot be made, the one for bob can; bob
    alone gets the message, and the session answers 250 OK. *)
Theorem first_commit_failure_unreported :
  match
    Server.handle_client
      (Smtpd.handle_line 64 alice_and_bob (lit "host") first_fails)
      16 (sendWelcome (lit "host")) greeted
      (Server.lines ["HELO client"; "MAIL FROM:<a@x>"; "RCPT TO:<alice>";
                     "RCPT TO:<bob>"; "DATA"; "hello"; "."]%string)
      None
  with
  | Some (Ok (st, c)) =>
      first_fails 0 = None
      /\ mkstemp_calls (spool st) = 2%nat
      /\ delivered (spool st) = [(lit "bob", lit "hello" ++ [CR; LF])]
      /\ Server.wire c
         = [sendWelcome (lit "host"); crlf "250 host"; send250; send250;
            send250; send354; send250]
  | _ => False
  end.
Proof. vm_compute. repeat split; reflexivity. Qed.

(** Thirty recipients are accepted, each with 250 OK. *)
Example thirty_recipients :
  match
    Server.handle_client
      (Smtpd.handle_line 64 alice_and_bob (lit "host") always)
      40 (sendWelcome (lit "host")) greeted
      (Server.lines (["HELO client"; "MAIL FROM:<a@x>"]%string
                     ++ replicate 30 "RCPT TO:<bob>"%string))
      None
  with
  | Some (Ok (st, c)) =>
      rcpt_count st = 30
      /\ Server.wire c
         = [sendWelcome (lit "host"); crlf "250 host"] ++ replicate 31 send250
  | _ => False
  end.
Proof. vm_compute. split; reflexivity. Qed.

(** C4, at the thirty-first recipient: the session does not refuse it;
    the copy into [toEmail[30]] leaves the array. *)
Theorem thirty_first_rcpt_overflows :
  Server.handle_client
    (Smtpd.handle_line 64 alice_and_bob (lit "host") always)
    40 (sendWelcome (lit "host")) greeted
    (Server.lines (["HELO client"; "MAIL FROM:<a@x>"]%string
                   ++ replicate 31 "RCPT TO:<bob>"%string))
    None
  = Some (Fault OutOfBounds).
Proof. vm_compute. reflexivity. Qed.

End SmtpData.

(** ** POP3: the numbers in the replies *)

Module PopCounts.
Import Libc Popd.

Lemma to_int_fits n : to_int n = n <-> - 2 ^ 31 <= n < 2 ^ 31.
Proof.
  unfold to_int.
  pose proof (Z.mod_pos_bound n (2 ^ 32) ltac:(lia)) as Hm.
  pose proof (Z.div_mod n (2 ^ 32) ltac:(lia)) as Hd.
  destruct (Z.ltb_spec (n mod 2 ^ 32) (2 ^ 31)); split; intros; lia.
Qed.

Lemma lit_inj s t : lit s = lit t -> s = t.
Proof.
  unfold lit. intros H.
  rewrite <- (string_of_list_ascii_of_string s),
          <- (string_of_list_ascii_of_string t), H.
  reflexivity.
Qed.

Lemma to_int_not_nil n : Z.to_int n <> Decimal.Pos Decimal.Nil
                         /\ Z.to_int n <> Decimal.Neg Decimal.Nil.
Proof.
  destruct n as [|p|p]; simpl; split; try discriminate.
  all: intros [= H]; exact (DecimalPos.Unsigned.to_uint_nonnil p H).
Qed.

Lemma sprintf_d_inj n m : sprintf_d n = sprintf_d m -> n = m.
Proof.
  unfold sprintf_d. intros H. apply lit_inj in H.
  apply (f_equal NilZero.int_of_string) in H.
  destruct (to_int_not_nil n), (to_int_not_nil m).
  rewrite !NilZero.isi in H by assumption.
  injection H as H. apply DecimalZ.to_int_inj, H.
Qed.

Lemma uint_no_space d : SP ∉ lit (NilEmpty.string_of_uint d).
Proof.
  induction d; cbn [NilEmpty.string_of_uint lit list_ascii_of_string];
    [apply not_elem_of_nil|..];
    (apply not_elem_of_cons; split; [discriminate | exact IHd]).
Qed.

Lemma sprintf_d_no_space n : SP ∉ sprintf_d n.
Proof.
  unfold sprintf_d, NilZero.string_of_int, NilZero.string_of_uint.
  destruct (Z.to_int n) as [d|d].
  - destruct d; try apply uint_no_space.
    apply not_elem_of_cons; split; [discriminate | apply not_elem_of_nil].
  - cbn [lit list_ascii_of_string].
    apply not_elem_of_cons; split; [discriminate|].
    destruct d; try apply uint_no_space.
    apply not_elem_of_cons; split; [discriminate | apply not_elem_of_nil].
Qed.

(** Two words followed by a space are told apart at the space. *)
Lemma split_at_space (a a' r r' : bytes) :
  SP ∉ a -> SP ∉ a' -> a ++ SP :: r = a' ++ SP :: r' -> a = a' /\ r = r'.
Proof.
  revert a'; induction a as [|x a IH]; intros [|y a']; simpl.
  - intros _ _ [= ->]. auto.
  - rewrite not_elem_of_cons. intros _ [Hy _] [= Heq _]. congruence.
  - rewrite not_elem_of_cons. intros [Hx _] _ [= Heq _]. congruence.
  - rewrite !not_elem_of_cons. intros [_ Ha] [_ Ha'] [= -> Heq].
    destruct (IH a' Ha Ha' Heq) as [-> ->]. auto.
Qed.

(** The two numbers can be read back from either reply. *)
Lemma sendCount_inj c s c' s' :
  sprintf_d c ++ lit " " ++ sprintf_d s ++ [CR; LF]
  = sprintf_d c' ++ lit " " ++ sprintf_d s' ++ [CR; LF] ->
  c = c' /\ s = s'.
Proof.
  change (lit " ") with [SP]. cbn [app]. intros H.
  apply split_at_space in H as [Hc Hs]; try apply sprintf_d_no_space.
  apply app_inv_tail in Hs. split; apply sprintf_d_inj; assumption.
Qed.

(** C10: both replies print their two numbers through [%d], the count
    as the [int] with the bits of the [unsigned int] and the size cast
    from [size_t] to [int]; for a count below 2^32 and a size below 2^64,
    the numbers printed are the count and the size exactly when both are
    below 2^31. *)
Theorem counts_printed_as_int (mailCount size : Z) :
  0 <= mailCount < 2 ^ 32 -> 0 <= size < 2 ^ 64 ->
  sendCountPositive mailCount size
  = lit "+OK " ++ sprintf_d (to_int mailCount) ++ lit " "
      ++ sprintf_d (to_int size) ++ [CR; LF]
  /\ sendCount mailCount size
     = sprintf_d (to_int mailCount) ++ lit " "
         ++ sprintf_d (to_int size) ++ [CR; LF]
  /\ (sendCountPositive mailCount size
      = lit "+OK " ++ sprintf_d mailCount ++ lit " "
          ++ sprintf_d size ++ [CR; LF]
      <-> mailCount < 2 ^ 31 /\ size < 2 ^ 31)
  /\ (sendCount mailCount size
      = sprintf_d mailCount ++ lit " " ++ sprintf_d size ++ [CR; LF]
      <-> mailCount < 2 ^ 31 /\ size < 2 ^ 31).
Proof.
  intros Hc Hs. split; [reflexivity|]. split; [reflexivity|].
  assert (Hfits : to_int mailCount = mailCount /\ to_int size = size
                  <-> mailCount < 2 ^ 31 /\ size < 2 ^ 31).
  { rewrite !to_int_fits. lia. }
  unfold sendCountPositive, sendCount. split; split.
  - intros H. apply app_inv_head, sendCount_inj in H. apply Hfits, H.
  - intros H. apply Hfits in H as [-> ->]. reflexivity.
  - intros H. apply sendCount_inj in H. apply Hfits, H.
  - intros H. apply Hfits in H as [-> ->]. reflexivity.
Qed.

Lemma counts_printed_as_int_witness :
  sendCountPositive 1 3000000000 = lit "+OK 1 -1294967296" ++ [CR; LF]
  /\ sendCount 2 100 = lit "2 100" ++ [CR; LF].
Proof.
  destruct (counts_printed_as_int 1 3000000000 ltac:(lia) ltac:(lia))
    as (Hpos & _).
  destruct (counts_printed_as_int 2 100 ltac:(lia) ltac:(lia))
    as (_ & Hline & _).
  rewrite Hpos, Hline. vm_compute. split; reflexivity.
Defined.

End PopCounts.

(** ** The line reader over a whole stream *)

Module ReaderStream.
Import Libc SocketBuffer Rules LibcFacts SocketBufferFacts.

(** What [recv] stores is the front of what the peer still sends, and a
    failure of the peer stays ahead until [recv] reports it. *)
Lemma recv_front sock : forall len r bs sock',
  recv sock len = (r, bs, sock') -> 0 <= r ->
  r = Z.of_nat (length bs)
  /\ bs ++ pending sock' = pending sock
  /\ fails sock' = fails sock.
Proof.
  induction sock as [|e rest IH]; intros len r bs sock' Hrecv Hr.
  - injection Hrecv as <- <- <-. auto.
  - destruct e as [seg|].
    + destruct seg as [|b seg].
      * simpl in Hrecv. destruct (IH len r bs sock' Hrecv Hr) as (? & ? & ?).
        auto.
      * cbn [recv] in Hrecv. injection Hrecv as <- <- <-.
        split; [reflexivity|].
        destruct (drop len (b :: seg)) as [|m more] eqn:Hdrop.
        -- rewrite <- (take_drop len (b :: seg)) at 2.
           rewrite Hdrop, app_nil_r. auto.
        -- cbn [pending fails]. rewrite <- Hdrop, app_assoc, take_drop. auto.
    + injection Hrecv as <- <- <-. lia.
Qed.

Lemma copy_out_keeps sb sock eos :
  -1 <= eos -> (Z.to_nat (eos + 1) <= length (buf sb))%nat ->
  take (Z.to_nat (rv (copy_out sb sock eos))) (out (copy_out sb sock eos))
    ++ buf (sb_after (copy_out sb sock eos))
  = buf sb.
Proof.
  intros Heos Hlen. cbn [copy_out rv out sb_after buf].
  rewrite take_app_le by (rewrite length_take; lia).
  rewrite take_take, Nat.min_id. apply take_drop.
Qed.

(** The loop neither loses nor repeats an octet. *)
Lemma read_loop_keeps fuel : forall sb sock r,
  read_loop fuel sb sock = Some r -> 0 <= rv r ->
  take (Z.to_nat (rv r)) (out r) ++ buf (sb_after r) ++ pending (sock_after r)
  = buf sb ++ pending sock
  /\ fails (sock_after r) = fails sock.
Proof.
  induction fuel as [|fuel IH]; intros sb sock r; rewrite read_loop_eq;
    unfold memchr.
  all: destruct (index_of LF (buf sb)) as [i|] eqn:Hi.
  all: try (apply index_of_Some in Hi as [Hlt _];
            intros [= <-] _; split; [|reflexivity];
            rewrite app_assoc, copy_out_keeps by lia; reflexivity).
  all: destruct (Nat.ltb_spec (avail_data sb) (max_bytes sb)) as [Hroom|Hfull].
  all: try (unfold avail_data in Hfull;
            intros [= <-] _; split; [|reflexivity];
            rewrite app_assoc, copy_out_keeps by lia; reflexivity).
  - discriminate.
  - destruct (recv sock (max_bytes sb - avail_data sb)) as [[n bs] sock']
      eqn:Hrecv.
    destruct (Z.ltb_spec n 0) as [Hneg|Hpos].
    + intros [= <-]. cbn [rv]. lia.
    + destruct (recv_front _ _ _ _ _ Hrecv Hpos) as (Hn & Hfront & Hfails).
      destruct (Z.eqb_spec n 0) as [Hzero|Hsome].
      * intros [= <-] _. split; [|exact Hfails].
        assert (bs = []) as -> by (destruct bs; [reflexivity | simpl in Hn; lia]).
        rewrite app_assoc, copy_out_keeps, <- Hfront by (unfold avail_data; lia).
        reflexivity.
      * intros Hloop Hrv.
        destruct (IH _ _ _ Hloop Hrv) as [Hkeep Hf].
        split; [|congruence].
        rewrite Hkeep. cbn [buf]. rewrite <- app_assoc, Hfront. reflexivity.
Qed.

Lemma index_of_first c l r :
  c ∉ l -> index_of c (l ++ c :: r) = Some (length l).
Proof.
  induction l as [|x l IH]; simpl.
  - intros _. rewrite Ascii.eqb_refl. reflexivity.
  - rewrite not_elem_of_cons. intros [Hx Hl].
    destruct (Ascii.eqb_spec x c) as [->|_]; [congruence|].
    rewrite (IH Hl). reflexivity.
Qed.

(** X1: a call that returns octets neither loses nor repeats any: the
    octets returned, then what stays in the buffer, then what the peer
    still sends, are what was buffered and to come before the call; and a
    failure of the peer that was ahead is still ahead. *)
Theorem sb_read_line_keeps_stream (sb : socket_buffer) (sock : socket)
    (r : read_result) :
  sb_read_line sb sock = Some r -> 0 <= rv r ->
  take (Z.to_nat (rv r)) (out r) ++ buf (sb_after r) ++ pending (sock_after r)
  = buf sb ++ pending sock
  /\ fails (sock_after r) = fails sock.
Proof. unfold sb_read_line. apply read_loop_keeps. Qed.

Lemma sb_read_line_keeps_stream_witness :
  exists r,
    sb_read_line (sb_create 8) [Data (lit "ab"); Data (LF :: lit "cd"); Err]
    = Some r
    /\ take (Z.to_nat (rv r)) (out r) = lit "ab" ++ [LF]
    /\ buf (sb_after r) ++ pending (sock_after r) = lit "cd"
    /\ fails (sock_after r) = true.
Proof.
  eexists. split; [vm_compute; reflexivity|].
  pose proof (sb_read_line_keeps_stream (sb_create 8)
                [Data (lit "ab"); Data (LF :: lit "cd"); Err] _
                ltac:(vm_compute; reflexivity) ltac:(vm_compute; discriminate))
    as [_ Hfails].
  split; [reflexivity|]. split; [reflexivity | exact Hfails].
Defined.

(** X2: when what is buffered and to come starts with a line, LF
    included, that fits the buffer, the call returns that line with its
    LF, NUL-terminated, and leaves exactly the rest for later calls. *)
Theorem sb_read_line_returns_line (sb : socket_buffer) (sock : socket)
    (line rest : bytes) :
  (avail_data sb <= max_bytes sb)%nat ->
  buf sb ++ pending sock = line ++ LF :: rest ->
  LF ∉ line -> (length line < max_bytes sb)%nat ->
  exists r,
    sb_read_line sb sock = Some r
    /\ rv r = Z.of_nat (length line) + 1
    /\ out r = line ++ [LF; NUL]
    /\ buf (sb_after r) ++ pending (sock_after r) = rest
    /\ (avail_data (sb_after r) <= max_bytes (sb_after r))%nat.
Proof.
  intros Hle Hstream Hno Hfits. unfold sb_read_line.
  destruct (read_loop_spec sock (max_bytes sb - avail_data sb) sb Hle)
    as (r & Hr & Hrv & Hout & Hcap & Hinv); [lia|].
  rewrite Hstream in Hrv, Hout.
  assert (Hidx : index_of LF (take (max_bytes sb) (line ++ LF :: rest))
                 = Some (length line)).
  { apply index_of_take; [apply index_of_first, Hno | exact Hfits]. }
  unfold line_rv in Hrv. rewrite Hidx in Hrv.
  assert (Htake : take (Z.to_nat (rv r)) (line ++ LF :: rest) = line ++ [LF]).
  { rewrite Hrv. replace (Z.to_nat (Z.of_nat (length line) + 1))
      with (length line + 1)%nat by lia.
    rewrite take_app_add'; reflexivity. }
  specialize (Hout ltac:(lia)). rewrite Htake in Hout.
  exists r. split; [exact Hr|]. split; [exact Hrv|].
  split; [rewrite Hout, <- app_assoc; reflexivity|].
  split; [|rewrite Hcap; exact Hinv].
  destruct (read_loop_keeps _ _ _ _ Hr ltac:(lia)) as [Hkeep _].
  rewrite Hout, Hstream in Hkeep.
  replace (Z.to_nat (rv r)) with (length (line ++ [LF])) in Hkeep
    by (rewrite length_app; simpl; lia).
  rewrite take_app_length, <- app_assoc in Hkeep.
  apply app_inv_head in Hkeep. injection Hkeep as Hkeep. exact Hkeep.
Qed.

Lemma sb_read_line_returns_line_witness :
  exists r,
    sb_read_line (sb_create 1024)
      [Data (lit "NOOP" ++ [CR]); Data (LF :: lit "QUIT")] = Some r
    /\ rv r = 6
    /\ out r = lit "NOOP" ++ [CR; LF; NUL].
Proof.
  destruct (sb_read_line_returns_line (sb_create 1024)
              [Data (lit "NOOP" ++ [CR]); Data (LF :: lit "QUIT")]
              (lit "NOOP" ++ [CR]) (lit "QUIT"))
    as (r & Hr & Hrv & Hout & _).
  - cbn [avail_data sb_create buf max_bytes length]. lia.
  - reflexivity.
  - apply index_of_None. reflexivity.
  - cbn [sb_create max_bytes]. simpl length. lia.
  - exists r. split; [exact Hr|]. split; [exact Hrv | exact Hout].
Defined.

End ReaderStream.

(** ** Arguments of commands *)

Module ArgumentFacts.
Import Libc Outcome Line User Popd Rules Fixtures LibcFacts CommandFacts.

Lemma cstr_NUL_free l : NUL ∉ cstr l.
Proof.
  induction l as [|x l IH]; simpl; [apply not_elem_of_nil|].
  destruct (Ascii.eqb_spec x NUL) as [->|Hne]; [apply not_elem_of_nil|].
  apply not_elem_of_cons; split; [congruence | exact IH].
Qed.

Lemma cstr_app l r : NUL ∉ l -> cstr (l ++ r) = l ++ cstr r.
Proof.
  induction l as [|x l IH]; simpl; [reflexivity|].
  rewrite not_elem_of_cons; intros [Hx Hl].
  destruct (Ascii.eqb_spec x NUL) as [->|_]; [congruence|].
  rewrite IH; auto.
Qed.

Lemma cstr_drop l n : (n <= length (cstr l))%nat ->
  cstr (drop n l) = drop n (cstr l).
Proof.
  revert n; induction l as [|x l IH]; intros [|n]; simpl; try reflexivity.
  destruct (Ascii.eqb x NUL); simpl; [lia|]. intros H. apply IH. lia.
Qed.

Lemma upto_cr_no_CR s : CR ∉ upto_cr s.
Proof.
  induction s as [|x s IH]; simpl; [apply not_elem_of_nil|].
  destruct (Ascii.eqb_spec x CR) as [->|Hne]; [apply not_elem_of_nil|].
  apply not_elem_of_cons; split; [congruence | exact IH].
Qed.

Lemma upto_cr_sub s c : c ∈ upto_cr s -> c ∈ s.
Proof.
  induction s as [|x s IH]; simpl; [trivial|].
  destruct (Ascii.eqb x CR); [intros H; inversion H|].
  rewrite !elem_of_cons. intros [->|H]; auto.
Qed.

Lemma skip_cr_sub s c : c ∈ skip_cr s -> c ∈ s.
Proof.
  induction s as [|x s IH]; simpl; [trivial|].
  destruct (Ascii.eqb x CR); [|trivial].
  intros H. apply elem_of_cons. right. apply IH, H.
Qed.

Lemma upto_cr_app a r : CR ∉ a -> upto_cr (a ++ CR :: r) = a.
Proof.
  induction a as [|x a IH]; simpl.
  - intros _. reflexivity.
  - rewrite not_elem_of_cons. intros [Hx Ha].
    destruct (Ascii.eqb_spec x CR) as [->|_]; [congruence|].
    rewrite (IH Ha). reflexivity.
Qed.

Lemma skip_cr_id a r : a <> [] -> CR ∉ a -> skip_cr (a ++ r) = a ++ r.
Proof.
  destruct a as [|x a]; [congruence|]. intros _.
  rewrite not_elem_of_cons. intros [Hx _]. simpl.
  destruct (Ascii.eqb_spec x CR) as [->|_]; [congruence | reflexivity].
Qed.

Lemma retrieveArgs_finds (cmd arg rest : bytes) :
  SP ∉ cmd -> NUL ∉ cmd -> arg <> [] -> CR ∉ arg -> NUL ∉ arg ->
  retrieveArgs (cmd ++ SP :: arg ++ CR :: rest) = Some arg.
Proof.
  intros Hsp Hnul Hne Hcr Hnularg. unfold retrieveArgs, strchr.
  rewrite cstr_app by exact Hnul.
  change (cstr (SP :: arg ++ CR :: rest)) with (SP :: cstr (arg ++ CR :: rest)).
  rewrite ReaderStream.index_of_first by exact Hsp.
  replace (S (length cmd)) with (length (cmd ++ [SP]))
    by (rewrite length_app; simpl; lia).
  replace (cmd ++ SP :: arg ++ CR :: rest)
    with ((cmd ++ [SP]) ++ arg ++ CR :: rest)
    by (rewrite <- app_assoc; reflexivity).
  rewrite drop_app_length. unfold strtok_cr.
  rewrite cstr_app by exact Hnularg.
  change (cstr (CR :: rest)) with (CR :: cstr rest).
  rewrite skip_cr_id, upto_cr_app by assumption.
  destruct arg; [congruence | reflexivity].
Qed.

(** X3: [retrieveArgs] gives back the argument of a command line: for a
    command word without space or zero octet, followed by one space, an
    argument that is not empty and holds no CR and no zero octet, and a
    CR, the result is that argument, whatever it holds otherwise (spaces
    included) and whatever follows the CR. *)
Theorem retrieveArgs_round_trip (cmd arg rest : bytes) :
  SP ∉ cmd -> NUL ∉ cmd -> arg <> [] -> CR ∉ arg -> NUL ∉ arg ->
  retrieveArgs (cmd ++ SP :: arg ++ CR :: rest) = Some arg.
Proof. exact (retrieveArgs_finds cmd arg rest). Qed.

Lemma retrieveArgs_round_trip_witness :
  retrieveArgs (lit "USER" ++ SP :: lit "alice smith" ++ CR :: [LF; NUL])
  = Some (lit "alice smith").
Proof.
  apply (retrieveArgs_round_trip (lit "USER") (lit "alice smith") [LF; NUL]).
  - apply index_of_None. reflexivity.
  - apply index_of_None. reflexivity.
  - discriminate.
  - apply index_of_None. reflexivity.
  - apply index_of_None. reflexivity.
Defined.

(** X4: an argument [retrieveArgs] finds is never empty and holds neither
    a CR nor a zero octet, and the string it was taken from has a space
    in it. *)
Theorem retrieveArgs_shape (str arg : bytes) :
  retrieveArgs str = Some arg ->
  arg <> [] /\ (CR ∉ arg) /\ (NUL ∉ arg) /\ (SP ∈ cstr str).
Proof.
  unfold retrieveArgs, strchr, strtok_cr.
  destruct (index_of SP (cstr str)) as [i|] eqn:Hi; [|discriminate].
  apply index_of_Some in Hi as [_ Hat].
  apply list_elem_of_lookup_2 in Hat.
  destruct (upto_cr (skip_cr (cstr (drop (S i) str)))) as [|x t] eqn:Htok;
    [discriminate|].
  intros [= <-]. split; [discriminate|]. rewrite <- Htok.
  split; [apply upto_cr_no_CR|]. split; [|exact Hat].
  intros Hin. apply upto_cr_sub, skip_cr_sub in Hin.
  exact (cstr_NUL_free _ Hin).
Qed.

Lemma retrieveArgs_shape_witness :
  lit "1" <> [] /\ (CR ∉ lit "1") /\ (NUL ∉ lit "1")
  /\ (SP ∈ cstr (lit "DELE 1" ++ [CR; LF; NUL])).
Proof.
  apply (retrieveArgs_shape (lit "DELE 1" ++ [CR; LF; NUL]) (lit "1")).
  reflexivity.
Defined.

Section Session.

Variable MAX_USERNAME_SIZE : Z.
Variable is_valid_user : bytes -> option bytes -> bool.
Variable load_user_mail : bytes -> mail_list.
Variable open_mail : mail_item -> option bytes.

Abbreviation handle_line :=
  (Popd.handle_line MAX_USERNAME_SIZE is_valid_user load_user_mail open_mail).

(** X5: in the AUTHORIZATION state, a well-formed USER line that is not
    the bare command, or such a PASS line after an accepted USER, for
    which [retrieveArgs] finds no argument (no space in the line, or
    nothing after it) hands the null pointer to [strcpy]. *)
Theorem argument_missing_faults (st : state) (reply : bytes) (reply_size : Z)
    (cmd : bytes) :
  authorization st = true ->
  checkCRLF reply reply_size = true ->
  scan_command (command st) reply = Ok cmd ->
  strcasecmp cmd (lit "USER") = 0
  \/ (strcasecmp cmd (lit "PASS") = 0 /\ accepted_user st = true) ->
  reply_size <> 6 ->
  retrieveArgs reply = None ->
  handle_line st reply reply_size = Fault NullPointer.
Proof.
  intros Hauth Hcheck Hscan Hcmd Hsize Hargs.
  unfold Popd.handle_line. rewrite Hscan. cbn [bind].
  rewrite Hcheck. cbn [set_command authorization]. rewrite Hauth.
  unfold authorization_state, is_cmd. cbn [set_command command accepted_user].
  destruct (Z.eqb_spec reply_size 6); [contradiction|]. cbn [negb].
  destruct Hcmd as [Huser|[Hpass Hacc]].
  - settle_cmd Huser. rewrite Hargs. reflexivity.
  - settle_cmd Hpass. rewrite Hacc, Hargs. reflexivity.
Qed.

End Session.

Lemma argument_missing_faults_witness :
  Popd.handle_line 64 alice_only alice_mail no_file fresh
    (lit "USER" ++ ["009"%char] ++ lit "alice" ++ [CR; LF; NUL]) 12
  = Fault NullPointer.
Proof.
  apply (argument_missing_faults 64 alice_only alice_mail no_file fresh
           (lit "USER" ++ ["009"%char] ++ lit "alice" ++ [CR; LF; NUL]) 12
           (lit "USER")).
  - reflexivity.
  - vm_compute. reflexivity.
  - vm_compute. reflexivity.
  - left. vm_compute. reflexivity.
  - lia.
  - vm_compute. reflexivity.
Defined.

End ArgumentFacts.

(** ** POP3: message numbers printed and read back *)

Module PopIndex.
Import Libc Popd LibcFacts.

Abbreviation digits_step := (fun (acc : Z) (c : ascii) => 10 * acc + digit_val c).

Ltac digit_value :=
  match goal with
  | |- context [digit_val ?c] =>
      let v := eval vm_compute in (digit_val c) in
      change (digit_val c) with v
  end.

Lemma fold_uint_acc d : forall acc,
  fold_left digits_step (lit (NilEmpty.string_of_uint d)) (Z.pos acc)
  = Z.pos (Pos.of_uint_acc d acc).
Proof.
  induction d; intros acc;
    cbn [NilEmpty.string_of_uint lit list_ascii_of_string fold_left
         Pos.of_uint_acc];
    [reflexivity|..];
    digit_value; rewrite <- IHd; f_equal; lia.
Qed.

Lemma fold_uint d :
  fold_left digits_step (lit (NilEmpty.string_of_uint d)) 0
  = Z.of_N (Pos.of_uint d).
Proof.
  induction d;
    cbn [NilEmpty.string_of_uint lit list_ascii_of_string fold_left
         Pos.of_uint];
    [reflexivity | digit_value; exact IHd | ..];
    digit_value; apply fold_uint_acc.
Qed.

Lemma uint_numbers_only d :
  numbers_only (lit (NilEmpty.string_of_uint d)) = true.
Proof.
  induction d; cbn [NilEmpty.string_of_uint lit list_ascii_of_string];
    [reflexivity|..]; exact IHd.
Qed.

Lemma sprintf_d_pos p :
  sprintf_d (Z.pos p) = lit (NilEmpty.string_of_uint (Pos.to_uint p)).
Proof.
  unfold sprintf_d. cbn [Z.to_int NilZero.string_of_int].
  unfold NilZero.string_of_uint.
  pose proof (DecimalPos.Unsigned.to_uint_nonnil p) as Hnil.
  destruct (Pos.to_uint p); [congruence | reflexivity..].
Qed.

Lemma sprintf_d_neg p : numbers_only (sprintf_d (Z.neg p)) = false.
Proof. reflexivity. Qed.

Lemma strtol_sprintf_d n : 0 <= n -> strtol (sprintf_d n) = Z.min LONG_MAX n.
Proof.
  intros Hn. unfold strtol. f_equal. destruct n as [|p|p]; [reflexivity| |lia].
  rewrite sprintf_d_pos, fold_uint, DecimalPos.Unsigned.of_to. reflexivity.
Qed.

Lemma numbers_only_sprintf_d n : 0 <= n -> numbers_only (sprintf_d n) = true.
Proof.
  intros Hn. destruct n as [|p|p]; [reflexivity| |lia].
  rewrite sprintf_d_pos. apply uint_numbers_only.
Qed.

(** X6: a message number printed in decimal is read back by
    [numbers_only] and the [strtol] conversion as the same number, for
    every number below 2^32; printed through [%d] as the replies print it,
    a number below 2^32 is accepted as an argument exactly when it is
    below 2^31 (above, a minus sign is printed), and is then read back
    unchanged. *)
Theorem index_round_trip (n : Z) :
  0 <= n < 2 ^ 32 ->
  numbers_only (sprintf_d n) = true
  /\ parse_index (sprintf_d n) = n
  /\ (numbers_only (sprintf_d (to_int n)) = true <-> n < 2 ^ 31)
  /\ (n < 2 ^ 31 -> parse_index (sprintf_d (to_int n)) = n).
Proof.
  intros Hn.
  assert (Hparse : parse_index (sprintf_d n) = n).
  { unfold parse_index. rewrite strtol_sprintf_d by lia.
    unfold LONG_MAX, to_unsigned, to_int.
    rewrite Z.min_r by lia. rewrite (Z.mod_small n) by lia.
    destruct (Z.ltb_spec n (2 ^ 31)).
    - apply Z.mod_small. lia.
    - replace (n - 2 ^ 32) with (n + (-1) * 2 ^ 32) by lia.
      rewrite Z.mod_add by lia. apply Z.mod_small. lia. }
  split; [apply numbers_only_sprintf_d; lia|]. split; [exact Hparse|].
  assert (Hsmall : n < 2 ^ 31 -> to_int n = n).
  { intros Hlt. apply PopCounts.to_int_fits. lia. }
  split; [split|].
  - intros Hnum. destruct (Z.ltb_spec n (2 ^ 31)) as [|Hbig]; [trivial|].
    exfalso. unfold to_int in Hnum. rewrite (Z.mod_small n) in Hnum by lia.
    destruct (Z.ltb_spec n (2 ^ 31)); [lia|].
    destruct (n - 2 ^ 32) as [|p|p] eqn:Hneg; try lia.
    rewrite sprintf_d_neg in Hnum. discriminate.
  - intros Hlt. rewrite Hsmall by exact Hlt.
    apply numbers_only_sprintf_d. lia.
  - intros Hlt. rewrite Hsmall by exact Hlt. exact Hparse.
Qed.

Lemma index_round_trip_witness :
  parse_index (sprintf_d 4000000000) = 4000000000
  /\ numbers_only (sprintf_d (to_int 4000000000)) = false.
Proof.
  destruct (index_round_trip 4000000000 ltac:(lia)) as (_ & Hparse & _).
  split; [exact Hparse | vm_compute; reflexivity].
Defined.

End PopIndex.

(** ** POP3: what a turn can change *)

Module PopSession.
Import Libc Outcome Line User Popd Rules Fixtures Invariants LibcFacts
  CommandFacts.

(** Take apart the run of one turn: every test and every call that can
    fault. *)
Ltac turn_cases H :=
  cbn [andb orb] in H;
  repeat
    (match type of H with
     | Ok _ = Ok _ => fail 1
     | Fault _ = Ok _ => discriminate H
     | context [bind ?r _] =>
         let R := fresh "R" in destruct r eqn:R; cbn [bind] in H
     | context [non_null ?r] =>
         let R := fresh "R" in destruct r eqn:R; cbn [non_null bind] in H
     | context [in_bounds ?r] =>
         let R := fresh "R" in destruct r eqn:R; cbn [in_bounds bind] in H
     | context [match ?x with _ => _ end] =>
         let R := fresh "R" in destruct x eqn:R
     end).

Section Session.

Variable MAX_USERNAME_SIZE : Z.
Variable is_valid_user : bytes -> option bytes -> bool.
Variable load_user_mail : bytes -> mail_list.
Variable open_mail : mail_item -> option bytes.

Abbreviation handle_line :=
  (Popd.handle_line MAX_USERNAME_SIZE is_valid_user load_user_mail open_mail).

(** X7: the TRANSACTION state is entered only by a PASS line, after an
    accepted USER, whose argument the store accepts as the password of
    the name held in [username]; the mailbox is then the one loaded for
    that name, and the turn is answered +OK alone. *)
Theorem transaction_only_by_pass (st : state) (reply : bytes) (reply_size : Z)
    (t : turn state) :
  transaction st = false ->
  handle_line st reply reply_size = Ok t ->
  transaction (state_of t) = true ->
  strcasecmp (command (state_of t)) (lit "PASS") = 0
  /\ accepted_user st = true
  /\ (exists pw, retrieveArgs reply = Some pw
                 /\ is_valid_user (username st) (Some pw) = true)
  /\ authorization (state_of t) = false
  /\ username (state_of t) = username st
  /\ mailList (state_of t) = load_user_mail (username st)
  /\ t = Continue (state_of t) [sendPositive].
Proof.
  intros Htrans Hrun Hin. unfold Popd.handle_line in Hrun.
  destruct (scan_command (command st) reply) as [cmd|]; [|discriminate].
  cbn [bind] in Hrun. cbn [set_command authorization transaction] in Hrun.
  rewrite Htrans in Hrun.
  unfold authorization_state, is_cmd in Hrun.
  cbn [set_command command accepted_user] in Hrun.
  destruct (checkCRLF reply reply_size);
    [|injection Hrun as <-; cbn in Hin; congruence].
  destruct (authorization st);
    [|injection Hrun as <-; cbn in Hin; congruence].
  destruct (strcasecmp cmd (lit "USER") =? 0).
  { turn_cases Hrun; injection Hrun as <-; cbn in Hin; congruence. }
  destruct (Z.eqb_spec (strcasecmp cmd (lit "PASS")) 0) as [Hpass|_].
  - destruct (accepted_user st) eqn:Hacc;
      [|injection Hrun as <-; cbn in Hin; congruence].
    destruct (negb (reply_size =? 6));
      [|injection Hrun as <-; cbn in Hin; congruence].
    cbn [andb] in Hrun.
    destruct (retrieveArgs reply) as [arg|]; [|discriminate].
    cbn [non_null bind] in Hrun.
    destruct (strcpy MAX_USERNAME_SIZE arg) as [pw|] eqn:Hcpy; [|discriminate].
    cbn [in_bounds bind set_password set_command username] in Hrun.
    unfold strcpy in Hcpy.
    destruct (Z.of_nat (length arg) <=? MAX_USERNAME_SIZE); [|discriminate].
    injection Hcpy as <-.
    destruct (is_valid_user (username st) (Some arg)) eqn:Hvalid;
      injection Hrun as <-; cbn in Hin |- *; [|congruence].
    repeat split; eauto.
  - destruct ((strcasecmp cmd (lit "QUIT") =? 0) && (reply_size =? 6));
      injection Hrun as <-; cbn in Hin; congruence.
Qed.

(** X8: a session in the TRANSACTION state stays there, under the same
    user name, whatever line it handles; and a session that is in exactly
    one of its two states is so after every turn. *)
Theorem state_kept (st : state) (reply : bytes) (reply_size : Z)
    (t : turn state) :
  handle_line st reply reply_size = Ok t ->
  (authorization st = false -> transaction st = true ->
   authorization (state_of t) = false /\ transaction (state_of t) = true
   /\ username (state_of t) = username st)
  /\ (one_state st = true -> one_state (state_of t) = true).
Proof.
  intros Hrun. unfold Popd.handle_line in Hrun.
  destruct (scan_command (command st) reply) as [cmd|]; [|discriminate].
  cbn [bind] in Hrun. cbn [set_command authorization transaction] in Hrun.
  unfold one_state.
  destruct (checkCRLF reply reply_size); [|injection Hrun as <-; cbn; auto].
  destruct (authorization st) eqn:Hauth.
  - split; [discriminate|]. intros Hone.
    unfold authorization_state, is_cmd in Hrun.
    cbn [set_command command accepted_user] in Hrun.
    turn_cases Hrun; injection Hrun as <-; cbn; rewrite ?Hauth; auto.
  - destruct (transaction st) eqn:Htrans;
      [|injection Hrun as <-; cbn; rewrite Hauth, Htrans; split;
        [discriminate | auto]].
    assert (Hkept : authorization (state_of t) = false
                    /\ transaction (state_of t) = true
                    /\ username (state_of t) = username st).
    { unfold transaction_state, is_cmd in Hrun.
      cbn [set_command command mailList mailCount] in Hrun.
      turn_cases Hrun; injection Hrun as <-; cbn; auto. }
    destruct Hkept as (Ha & Ht & Hu). rewrite Ha, Ht. auto.
Qed.

(** X9: the mailbox of the session changes only in a turn whose command
    word is PASS, DELE or RSET, or in the turn of the QUIT that destroys
    it in the TRANSACTION state and leaves the loop; in a turn after
    which the loop goes on, and whose command word is none of PASS, DELE
    and RSET, the mailbox is as it was. *)
Theorem mailbox_changes_by (st : state) (reply : bytes) (reply_size : Z)
    (t : turn state) :
  handle_line st reply reply_size = Ok t ->
  mailList (state_of t) <> mailList st ->
  strcasecmp (command (state_of t)) (lit "PASS") = 0
  \/ strcasecmp (command (state_of t)) (lit "DELE") = 0
  \/ strcasecmp (command (state_of t)) (lit "RSET") = 0
  \/ (strcasecmp (command (state_of t)) (lit "QUIT") = 0
      /\ reply_size = 6
      /\ transaction st = true
      /\ t = Break (set_mailList (set_command st (command (state_of t)))
                      (destroy_mail_list (mailList st)))
                   [sendPositive]).
Proof.
  intros Hrun Hchanged. unfold Popd.handle_line in Hrun.
  destruct (scan_command (command st) reply) as [cmd|]; [|discriminate].
  cbn [bind] in Hrun. cbn [set_command authorization transaction] in Hrun.
  destruct (checkCRLF reply reply_size);
    [|injection Hrun as <-; cbn in Hchanged; congruence].
  destruct (authorization st).
  - unfold authorization_state, is_cmd in Hrun.
    cbn [set_command command accepted_user] in Hrun.
    destruct (strcasecmp cmd (lit "USER") =? 0).
    { turn_cases Hrun; injection Hrun as <-; cbn in Hchanged; congruence. }
    destruct (Z.eqb_spec (strcasecmp cmd (lit "PASS")) 0) as [Hpass|_].
    + turn_cases Hrun; injection Hrun as <-; cbn in Hchanged |- *; auto.
    + turn_cases Hrun; injection Hrun as <-; cbn in Hchanged; congruence.
  - destruct (transaction st) eqn:Htrans;
      [|injection Hrun as <-; cbn in Hchanged; congruence].
    unfold transaction_state, is_cmd in Hrun.
    cbn [set_command command mailList mailCount] in Hrun.
    destruct ((strcasecmp cmd (lit "STAT") =? 0) && (reply_size =? 6));
      [injection Hrun as <-; cbn in Hchanged; congruence|].
    destruct (strcasecmp cmd (lit "LIST") =? 0);
      [turn_cases Hrun; injection Hrun as <-; cbn in Hchanged; congruence|].
    destruct (strcasecmp cmd (lit "RETR") =? 0);
      [turn_cases Hrun; injection Hrun as <-; cbn in Hchanged; congruence|].
    destruct (Z.eqb_spec (strcasecmp cmd (lit "DELE")) 0) as [Hdele|_];
      [turn_cases Hrun; injection Hrun as <-; cbn in Hchanged |- *; auto|].
    destruct (strcasecmp cmd (lit "NOOP") =? 0);
      [injection Hrun as <-; cbn in Hchanged; congruence|].
    destruct (Z.eqb_spec (strcasecmp cmd (lit "RSET")) 0) as [Hrset|_];
      [turn_cases Hrun; injection Hrun as <-; cbn in Hchanged |- *; auto|].
    destruct (Z.eqb_spec (strcasecmp cmd (lit "QUIT")) 0) as [Hquit|_];
      [|injection Hrun as <-; cbn in Hchanged; congruence].
    destruct (Z.eqb_spec reply_size 6) as [Hsize|_];
      [|injection Hrun as <-; cbn in Hchanged; congruence].
    injection Hrun as <-. cbn [state_of set_mailList set_command command].
    right. right. right. repeat split; assumption.
Qed.

End Session.

Lemma transaction_only_by_pass_witness :
  mailList alice_in = alice_mail (username alice_accepted).
Proof.
  destruct (transaction_only_by_pass 64 alice_only alice_mail no_file
              alice_accepted (lit "PASS pw" ++ [CR; LF; NUL]) 9
              (Continue alice_in [sendPositive]))
    as (_ & _ & _ & _ & _ & Hbox & _).
  - reflexivity.
  - vm_compute. reflexivity.
  - reflexivity.
  - exact Hbox.
Defined.

Lemma state_kept_witness :
  authorization (set_command alice_in (lit "NOOP")) = false
  /\ transaction (set_command alice_in (lit "NOOP")) = true
  /\ username (set_command alice_in (lit "NOOP")) = username alice_in.
Proof.
  destruct (state_kept 64 alice_only alice_mail no_file alice_in
              (lit "NOOP" ++ [CR; LF; NUL]) 6
              (Continue (set_command alice_in (lit "NOOP")) [sendPositive]))
    as [Hkept _].
  - vm_compute. reflexivity.
  - apply Hkept; reflexivity.
Defined.

Lemma mailbox_changes_by_witness :
  strcasecmp (lit "quit") (lit "PASS") = 0
  \/ strcasecmp (lit "quit") (lit "DELE") = 0
  \/ strcasecmp (lit "quit") (lit "RSET") = 0
  \/ (strcasecmp (lit "quit") (lit "QUIT") = 0
      /\ 6 = 6
      /\ transaction alice_in = true
      /\ Break (set_mailList (set_command alice_in (lit "quit")) [])
               [sendPositive]
         = Break
             (set_mailList (set_command alice_in (lit "quit"))
                (destroy_mail_list (mailList alice_in)))
             [sendPositive]).
Proof.
  apply (mailbox_changes_by 64 alice_only alice_mail no_file alice_in
           (lit "quit" ++ [CR; LF; NUL]) 6
           (Break (set_mailList (set_command alice_in (lit "quit")) [])
              [sendPositive])).
  - vm_compute. reflexivity.
  - vm_compute. discriminate.
Defined.

End PopSession.

(** ** SMTP: what a turn keeps and what it can change *)

Module SmtpSession.
Import Libc Outcome Line Smtpd Rules Fixtures Invariants LibcFacts LineFacts
  CommandFacts.

Lemma no_nul_cstr l : no_nul (cstr l) = true.
Proof.
  induction l as [|x l IH]; [reflexivity|]. cbn [cstr].
  destruct (Ascii.eqb x NUL) eqn:Hx; [reflexivity|].
  cbn [no_nul forallb]. rewrite Hx. exact IH.
Qed.

Lemma no_nul_app a b : no_nul (a ++ b) = no_nul a && no_nul b.
Proof. apply forallb_app. Qed.

Section Session.

Variable MAX_USERNAME_SIZE : Z.
Variable is_valid_user : bytes -> option bytes -> bool.
Variable domainName : bytes.
Variable mkstemp : nat -> option nat.

Abbreviation handle_line :=
  (Smtpd.handle_line MAX_USERNAME_SIZE is_valid_user domainName mkstemp).

(** A recipient is stored only where there is a row for it. *)
Lemma store_rcpt_Ok (st st' : state) (email : bytes) :
  store_rcpt MAX_USERNAME_SIZE st email = Ok st' ->
  0 <= rcpt_count st < 30
  /\ st' = mk_state (received_helo st) (received_mail st) (received_rcpt st)
             (received_data st) (rcpt_count st + 1) (data st) (fromEmail st)
             (<[Z.to_nat (rcpt_count st) := email]> (toEmail st))
             (command st) (spool st).
Proof.
  unfold store_rcpt, strcpy.
  destruct (Z.ltb_spec (rcpt_count st) 0); [discriminate|].
  destruct (Z.leb_spec 30 (rcpt_count st)); [discriminate|]. cbn [orb].
  destruct (Z.of_nat (length email) <=? MAX_USERNAME_SIZE); [|discriminate].
  cbn [in_bounds bind]. intros [= <-]. split; [lia | reflexivity].
Qed.

Ltac flag_cases st :=
  destruct st as [helo mail rcpt dat count body from rows word box];
  destruct helo, mail, rcpt, dat.

Ltac stored :=
  repeat match goal with
    | H : store_rcpt _ _ _ = Ok _ |- _ =>
        apply store_rcpt_Ok in H as [? ->]
    end.

Ltac kept Hinv :=
  unfold consistent, flags_consistent in *; cbn in * |-; cbn;
  rewrite ?andb_true_iff, ?Nat.eqb_eq, ?Z.eqb_eq, ?Z.leb_le in *;
  rewrite ?length_insert, ?no_nul_app, ?no_nul_cstr;
  repeat split; try tauto; try reflexivity; try lia.

(** X10: every turn that does not fault keeps the session consistent:
    the flags say one of the five states, [toEmail] keeps its 30 rows,
    the number of recipients is 0 before the first accepted RCPT and
    between 1 and 30 after it and during DATA, and the body collected
    during DATA holds no zero octet. *)
Theorem consistent_kept (st : state) (reply : bytes) (reply_size : Z)
    (t : turn state) :
  consistent st = true ->
  handle_line st reply reply_size = Ok t ->
  consistent (state_of t) = true.
Proof.
  intros Hinv Hrun. unfold Smtpd.handle_line in Hrun.
  destruct (scan_command (command st) reply) as [cmd|]; [|discriminate].
  cbn [bind] in Hrun.
  unfold data_state, mail_state, rcpt_state, helo_state, initial_state,
    rcpt_command, is_cmd in Hrun.
  flag_cases st; try discriminate Hinv;
    cbn [set_command received_data received_mail received_rcpt received_helo
         command rcpt_count toEmail data spool fromEmail] in Hrun;
    PopSession.turn_cases Hrun; injection Hrun as <-; stored;
    kept Hinv.
Qed.

(** X11: nothing is delivered, and no temporary file is asked for,
    except in the turn that handles the terminator of DATA: a turn that
    changes the spool starts during DATA, on a line of three octets that
    starts with "." CR LF, and ends DATA. *)
Theorem spool_changes_at_terminator (st : state) (reply : bytes)
    (reply_size : Z) (t : turn state) :
  handle_line st reply reply_size = Ok t ->
  spool (state_of t) <> spool st ->
  received_data st = true
  /\ strstr_at_start reply (crlf ".") = true /\ reply_size = 3
  /\ received_data (state_of t) = false.
Proof.
  intros Hrun Hchanged. unfold Smtpd.handle_line in Hrun.
  destruct (scan_command (command st) reply) as [cmd|]; [|discriminate].
  cbn [bind] in Hrun.
  unfold data_state, mail_state, rcpt_state, helo_state, initial_state,
    rcpt_command, is_cmd in Hrun.
  cbn [set_command received_data received_mail received_rcpt received_helo
       command rcpt_count toEmail data spool fromEmail] in Hrun.
  destruct (received_data st) eqn:Hdata.
  - destruct (strstr_at_start reply (crlf ".")) eqn:Hdot;
      [destruct (Z.eqb_spec reply_size 3) as [Hsize|Hsize]|];
      PopSession.turn_cases Hrun; injection Hrun as <-; stored;
      cbn in Hchanged |- *; try congruence; auto.
  - PopSession.turn_cases Hrun; injection Hrun as <-; stored;
      cbn in Hchanged; congruence.
Qed.

(** X12: outside DATA, a well-formed line whose command word is NOOP,
    QUIT, EHLO, RSET, VRFY, EXPN or HELP gets its fixed answer (250 OK;
    221 OK and the end of the loop; 502 for the other five) in every
    state and whatever follows the word, and changes nothing but
    [command]: RSET in particular resets nothing. *)
Theorem universal_commands (st : state) (reply : bytes) (reply_size : Z)
    (cmd : bytes) :
  received_data st = false ->
  checkCRLF reply reply_size = true ->
  scan_command (command st) reply = Ok cmd ->
  (strcasecmp cmd (lit "NOOP") = 0 ->
   handle_line st reply reply_size
   = Ok (Continue (set_command st cmd) [send250]))
  /\ (strcasecmp cmd (lit "QUIT") = 0 ->
      handle_line st reply reply_size
      = Ok (Break (set_command st cmd) [send221]))
  /\ (strcasecmp cmd (lit "EHLO") = 0 \/ strcasecmp cmd (lit "RSET") = 0
      \/ strcasecmp cmd (lit "VRFY") = 0 \/ strcasecmp cmd (lit "EXPN") = 0
      \/ strcasecmp cmd (lit "HELP") = 0 ->
      handle_line st reply reply_size
      = Ok (Continue (set_command st cmd) [send502])).
Proof.
  intros Hdata Hcheck Hscan. unfold Smtpd.handle_line.
  rewrite Hscan. cbn [bind]. rewrite Hcheck. cbn [orb].
  cbn [set_command received_data]. rewrite Hdata.
  unfold is_cmd. cbn [set_command command].
  split; [|split].
  - intros Hcmd. settle_cmd Hcmd. reflexivity.
  - intros Hcmd. settle_cmd Hcmd. reflexivity.
  - intros [Hcmd|[Hcmd|[Hcmd|[Hcmd|Hcmd]]]]; settle_cmd Hcmd; reflexivity.
Qed.

End Session.

Lemma consistent_kept_witness :
  consistent greeted = true /\ consistent in_data = true.
Proof.
  split; [reflexivity|].
  apply (consistent_kept 64 alice_and_bob (lit "host") always
           (mk_state true false true false 1 [] (lit "a@x")
              (<[0%nat := lit "bob"]> (replicate 30 [])) (lit "RCPT")
              (mk_store 0 []))
           (lit "DATA" ++ [CR; LF; NUL]) 6 (Continue in_data [send354])).
  - reflexivity.
  - vm_compute. reflexivity.
Defined.

Lemma spool_changes_at_terminator_witness :
  received_data in_data = true
  /\ strstr_at_start (filled dot_line) (crlf ".") = true /\ 3 = 3
  /\ received_data
       (mk_state true false false false 0 [] (lit "a@x")
          (<[0%nat := lit "bob"]> (replicate 30 [])) (lit ".")
          (mk_store 1 [(lit "bob", [])]))
     = false.
Proof.
  apply (spool_changes_at_terminator 64 alice_and_bob (lit "host") always
           in_data (filled dot_line) 3
           (Continue
              (mk_state true false false false 0 [] (lit "a@x")
                 (<[0%nat := lit "bob"]> (replicate 30 [])) (lit ".")
                 (mk_store 1 [(lit "bob", [])]))
              [send250])).
  - vm_compute. reflexivity.
  - vm_compute. discriminate.
Defined.

Lemma universal_commands_witness :
  Smtpd.handle_line 64 alice_and_bob (lit "host") always
    (mk_state true false true false 1 [] (lit "a@x")
       (<[0%nat := lit "bob"]> (replicate 30 [])) (lit "RCPT")
       (mk_store 0 []))
    (lit "RSET" ++ [CR; LF; NUL]) 6
  = Ok (Continue
          (mk_state true false true false 1 [] (lit "a@x")
             (<[0%nat := lit "bob"]> (replicate 30 [])) (lit "RSET")
             (mk_store 0 []))
          [send502]).
Proof.
  destruct (universal_commands 64 alice_and_bob (lit "host") always
              (mk_state true false true false 1 [] (lit "a@x")
                 (<[0%nat := lit "bob"]> (replicate 30 [])) (lit "RCPT")
                 (mk_store 0 []))
              (lit "RSET" ++ [CR; LF; NUL]) 6 (lit "RSET"))
    as (_ & _ & H502).
  - reflexivity.
  - vm_compute. reflexivity.
  - vm_compute. reflexivity.
  - apply H502. right. left. vm_compute. reflexivity.
Defined.

End SmtpSession.

(** ** SMTP: the paths in MAIL and RCPT *)

Module SmtpPaths.
Import Libc Outcome Line Smtpd Rules Fixtures Invariants LibcFacts LineFacts
  CommandFacts.

Lemma tolower_space a : isspace (tolower a) = isspace a.
Proof. destruct a as [[] [] [] [] [] [] [] []]; reflexivity. Qed.

Lemma tolower_is_NUL a : Ascii.eqb (tolower a) NUL = Ascii.eqb a NUL.
Proof. destruct a as [[] [] [] [] [] [] [] []]; reflexivity. Qed.

Lemma tolower_is_open a : Ascii.eqb (tolower a) "<" = Ascii.eqb a "<".
Proof. destruct a as [[] [] [] [] [] [] [] []]; reflexivity. Qed.

Lemma index_of_open_fold w :
  index_of "<" (map tolower w) = index_of "<" w.
Proof.
  induction w as [|a w IH]; [reflexivity|].
  cbn [map index_of]. rewrite tolower_is_open, IH. reflexivity.
Qed.

Lemma no_nul_fold w : no_nul (map tolower w) = no_nul w.
Proof.
  induction w as [|a w IH]; [reflexivity|].
  cbn [map no_nul forallb]. rewrite tolower_is_NUL. f_equal. exact IH.
Qed.

Lemma no_space_fold w : no_space (map tolower w) = no_space w.
Proof.
  induction w as [|a w IH]; [reflexivity|].
  cbn [map no_space forallb]. rewrite tolower_space. f_equal. exact IH.
Qed.

Lemma no_nul_elem w : no_nul w = true -> NUL ∉ w.
Proof.
  induction w as [|a w IH]; [intros _; apply not_elem_of_nil|].
  cbn [no_nul forallb]. rewrite andb_true_iff, negb_true_iff.
  intros [Ha Hw]. apply not_elem_of_cons. split; [|apply IH, Hw].
  intros <-. rewrite Ascii.eqb_refl in Ha. discriminate.
Qed.

Lemma scan_word_app w rest :
  no_space w = true -> scan_word (w ++ rest) = w ++ scan_word rest.
Proof.
  induction w as [|a w IH]; [reflexivity|].
  cbn [no_space forallb app scan_word].
  rewrite andb_true_iff, negb_true_iff. intros [-> Hw].
  rewrite (IH Hw). reflexivity.
Qed.

Lemma skip_ws_word w rest :
  w <> [] -> no_space w = true -> skip_ws (w ++ rest) = w ++ rest.
Proof.
  destruct w as [|a w]; [congruence|]. intros _.
  cbn [no_space forallb app skip_ws].
  rewrite andb_true_iff, negb_true_iff. intros [-> _]. reflexivity.
Qed.

Lemma rindex_of_last c l : rindex_of c (l ++ [c]) = Some (length l).
Proof.
  induction l as [|x l IH]; cbn [app rindex_of length].
  - rewrite Ascii.eqb_refl. reflexivity.
  - rewrite IH. reflexivity.
Qed.

Lemma index_of_split c l i :
  index_of c l = Some i ->
  exists pre post, l = pre ++ c :: post /\ (c ∉ pre) /\ length pre = i.
Proof.
  revert i; induction l as [|x l IH]; intros i; cbn [index_of];
    [discriminate|].
  destruct (Ascii.eqb_spec x c) as [->|Hne].
  - intros [= <-]. exists [], l. split; [reflexivity|].
    split; [apply not_elem_of_nil | reflexivity].
  - destruct (index_of c l) as [j|]; [|discriminate].
    intros [= <-]. destruct (IH j eq_refl) as (pre & post & -> & Hpre & Hlen).
    exists (x :: pre), post. split; [reflexivity|].
    split; [apply not_elem_of_cons; split; congruence | simpl; congruence].
Qed.

(** The path between the brackets is what [retrieveEmail] returns. *)
Lemma retrieveEmail_between (pre email : bytes) :
  "<"%char ∉ pre -> NUL ∉ pre -> NUL ∉ email ->
  retrieveEmail (pre ++ "<"%char :: email ++ [">"%char]) = Ok email.
Proof.
  intros Hopen Hpre Hemail. unfold retrieveEmail, strchr, strrchr.
  assert (Hnul : NUL ∉ pre ++ "<"%char :: email ++ [">"%char]).
  { rewrite elem_of_app, elem_of_cons, elem_of_app, list_elem_of_singleton.
    intros [?|[?|[?|?]]]; try contradiction; discriminate. }
  rewrite (cstr_id _ Hnul), ReaderStream.index_of_first by exact Hopen.
  cbn [non_null bind].
  replace (pre ++ "<"%char :: email ++ [">"%char])
    with ((pre ++ "<"%char :: email) ++ [">"%char])
    by (rewrite <- app_assoc; reflexivity).
  rewrite rindex_of_last. cbn [non_null bind].
  rewrite insert_app_r_alt by lia. rewrite Nat.sub_diag. cbn [insert list_insert].
  rewrite <- app_assoc. cbn [app].
  replace (S (length pre)) with (length (pre ++ ["<"%char]))
    by (rewrite length_app; simpl; lia).
  replace (pre ++ "<"%char :: email ++ [NUL])
    with ((pre ++ ["<"%char]) ++ email ++ [NUL])
    by (rewrite <- app_assoc; reflexivity).
  rewrite drop_app_length, cstr_filled, cstr_id by exact Hemail.
  reflexivity.
Qed.

(** The keyword, in any mix of cases, then a path that is not empty and
    a '>' pass the check, and the path is what [retrieveEmail] returns. *)
Lemma checkSyntax_accepts (width : nat) (keyword : string) (w addr : bytes) :
  no_nul (map tolower (lit keyword)) = true ->
  no_space (map tolower (lit keyword)) = true ->
  length (lit keyword) = width ->
  index_of "<" (map tolower (lit keyword)) = Some (Nat.pred width) ->
  map tolower w = map tolower (lit keyword) ->
  addr <> [] -> NUL ∉ addr ->
  checkSyntax width keyword (w ++ addr ++ [">"%char])
    (strlen (w ++ addr ++ [">"%char])) = true
  /\ retrieveEmail (w ++ addr ++ [">"%char]) = Ok addr.
Proof.
  intros Knul Kspace Klen Kopen Hfold Hne Haddr.
  assert (Hlen : length w = width).
  { rewrite <- Klen, <- (length_map tolower w), Hfold, length_map.
    reflexivity. }
  rewrite <- Hfold in Knul, Kspace, Kopen.
  rewrite no_nul_fold in Knul. rewrite no_space_fold in Kspace.
  rewrite index_of_open_fold in Kopen.
  apply no_nul_elem in Knul.
  destruct (index_of_split _ _ _ Kopen) as (pre & post & Hw & Hpre & Hpos).
  assert (post = []) as ->.
  { apply (f_equal length) in Hw. rewrite length_app in Hw. simpl in Hw.
    destruct post; [reflexivity | simpl in Hw; lia]. }
  assert (Hprenul : NUL ∉ pre).
  { intros Hin. apply Knul. rewrite Hw. apply elem_of_app. auto. }
  assert (Hmail : retrieveEmail (w ++ addr ++ [">"%char]) = Ok addr).
  { rewrite Hw, <- app_assoc. apply retrieveEmail_between; assumption. }
  split; [|exact Hmail].
  assert (Hnul : NUL ∉ w ++ addr ++ [">"%char]).
  { rewrite elem_of_app, elem_of_app, list_elem_of_singleton.
    intros [?|[?|?]]; try contradiction; discriminate. }
  assert (Hwne : w <> []) by (rewrite Hw; destruct pre; discriminate).
  unfold checkSyntax, strchr, strrchr, sscanf_ws, strlen.
  rewrite (cstr_id _ Hnul), (index_of_app_l _ _ _ _ Kopen).
  replace (w ++ addr ++ [">"%char]) with ((w ++ addr) ++ [">"%char])
    by (rewrite <- app_assoc; reflexivity).
  rewrite rindex_of_last.
  assert (Hgap : (1 <? Z.of_nat (length (w ++ addr))
                        - Z.of_nat (Nat.pred width)) = true).
  { apply Z.ltb_lt. rewrite length_app.
    destruct w; [congruence|]. destruct addr; [congruence|].
    simpl in Hlen |- *. lia. }
  rewrite Hgap, <- (app_assoc w), skip_ws_word, scan_word_app by assumption.
  rewrite take_app_length' by (symmetry; exact Hlen).
  destruct w as [|a w']; [congruence|].
  rewrite (strcasecmp_fold _ _ Hfold). cbn [Z.eqb].
  rewrite (app_assoc (a :: w')).
  unfold is_byte, at_.
  replace (Z.of_nat (length (((a :: w') ++ addr) ++ [">"%char])) - 1)
    with (Z.of_nat (length ((a :: w') ++ addr)))
    by (rewrite (length_app _ [">"%char]); simpl; lia).
  destruct (Z.ltb_spec (Z.of_nat (length ((a :: w') ++ addr))) 0); [lia|].
  rewrite Nat2Z.id, lookup_app_r, Nat.sub_diag by lia. reflexivity.
Qed.

Lemma path_round_trip_mail (w addr : bytes) :
  addr <> [] -> NUL ∉ addr ->
  map tolower w = map tolower (lit "FROM:<") ->
  checkMailSyntax (w ++ addr ++ [">"%char])
    (strlen (w ++ addr ++ [">"%char])) = true
  /\ retrieveEmail (w ++ addr ++ [">"%char]) = Ok addr.
Proof.
  intros Hne Hnul Hfold.
  apply (checkSyntax_accepts 6 "FROM:<"); try assumption; reflexivity.
Qed.

Lemma path_round_trip_rcpt (w addr : bytes) :
  addr <> [] -> NUL ∉ addr ->
  map tolower w = map tolower (lit "TO:<") ->
  checkRcptSyntax (w ++ addr ++ [">"%char])
    (strlen (w ++ addr ++ [">"%char])) = true
  /\ retrieveEmail (w ++ addr ++ [">"%char]) = Ok addr.
Proof.
  intros Hne Hnul Hfold.
  apply (checkSyntax_accepts 4 "TO:<"); try assumption; reflexivity.
Qed.

(** X13: [checkMailSyntax] accepts FROM:< and [checkRcptSyntax] accepts
    TO:<, in any mix of cases, followed by a path that is not empty and
    holds no zero octet, and by '>'; [retrieveEmail] then returns exactly
    that path. *)
Theorem path_round_trip (w addr : bytes) :
  addr <> [] -> NUL ∉ addr ->
  (map tolower w = map tolower (lit "FROM:<") ->
   checkMailSyntax (w ++ addr ++ [">"%char])
     (strlen (w ++ addr ++ [">"%char])) = true
   /\ retrieveEmail (w ++ addr ++ [">"%char]) = Ok addr)
  /\ (map tolower w = map tolower (lit "TO:<") ->
      checkRcptSyntax (w ++ addr ++ [">"%char])
        (strlen (w ++ addr ++ [">"%char])) = true
      /\ retrieveEmail (w ++ addr ++ [">"%char]) = Ok addr).
Proof.
  intros Hne Hnul. split; intros Hfold.
  - apply path_round_trip_mail; assumption.
  - apply path_round_trip_rcpt; assumption.
Qed.

Lemma path_round_trip_witness :
  checkMailSyntax (lit "From:<" ++ lit "a b@x" ++ [">"%char])
    (strlen (lit "From:<" ++ lit "a b@x" ++ [">"%char])) = true
  /\ retrieveEmail (lit "From:<" ++ lit "a b@x" ++ [">"%char])
     = Ok (lit "a b@x").
Proof.
  destruct (path_round_trip (lit "From:<") (lit "a b@x")) as [Hmail _].
  - discriminate.
  - apply index_of_None. reflexivity.
  - apply Hmail. reflexivity.
Defined.

Lemma index_of_app_inv c l r i :
  index_of c (l ++ r) = Some i -> (i < length l)%nat -> index_of c l = Some i.
Proof.
  revert i; induction l as [|x l IH]; intros i; cbn [app index_of length];
    [lia|].
  destruct (Ascii.eqb x c); [trivial|].
  destruct (index_of c (l ++ r)) as [j|] eqn:Hj; [|discriminate].
  intros [= <-] Hlt. rewrite (IH j eq_refl) by lia. reflexivity.
Qed.

Lemma ends_with (str : bytes) (c : ascii) :
  is_byte str (Z.of_nat (length str) - 1) c = true ->
  exists l, str = l ++ [c].
Proof.
  destruct str as [|x l _] using rev_ind.
  - discriminate.
  - unfold is_byte, at_. rewrite length_app. cbn [length].
    destruct (Z.ltb_spec (Z.of_nat (length l + 1) - 1) 0); [lia|].
    replace (Z.to_nat (Z.of_nat (length l + 1) - 1)) with (length l) by lia.
    rewrite lookup_app_r, Nat.sub_diag by lia. cbn.
    destruct (Ascii.eqb_spec x c) as [->|]; [|discriminate]. eauto.
Qed.

(** X14: a string without zero octet that passes [checkMailSyntax] or
    [checkRcptSyntax] ends in '>' and has a path that is not empty
    between its first '<' and that '>'; [retrieveEmail] returns this
    path, and never faults. *)
Theorem checked_path (width : nat) (keyword : string) (str : bytes) :
  NUL ∉ str ->
  checkSyntax width keyword str (strlen str) = true ->
  exists pre email,
    str = pre ++ "<"%char :: email ++ [">"%char]
    /\ ("<"%char ∉ pre) /\ email <> []
    /\ retrieveEmail str = Ok email.
Proof.
  intros Hnul. unfold checkSyntax, strchr, strrchr, strlen.
  rewrite (cstr_id _ Hnul).
  destruct (index_of "<" str) as [o|] eqn:Hopen; [|discriminate].
  destruct (rindex_of ">" str) as [c|] eqn:Hclose; [|discriminate].
  destruct (Z.ltb_spec 1 (Z.of_nat c - Z.of_nat o)) as [Hgap|]; [|discriminate].
  destruct (sscanf_ws width str) as [word|]; [|discriminate].
  destruct (strcasecmp word (lit keyword) =? 0); [|discriminate].
  intros Hlast. apply ends_with in Hlast as [l ->].
  rewrite rindex_of_last in Hclose. injection Hclose as <-.
  apply index_of_app_inv in Hopen; [|lia].
  destruct (index_of_split _ _ _ Hopen) as (pre & email & -> & Hpre & Hlen).
  exists pre, email. rewrite <- app_assoc. cbn [app].
  split; [reflexivity|]. split; [exact Hpre|].
  split.
  - intros ->. rewrite length_app in Hgap. simpl in Hgap. lia.
  - apply retrieveEmail_between; [exact Hpre| |];
      intros Hin; apply Hnul; rewrite !elem_of_app, !elem_of_cons; auto.
Qed.

Lemma checked_path_witness :
  exists pre email,
    lit "TO:<bob>" = pre ++ "<"%char :: email ++ [">"%char]
    /\ ("<"%char ∉ pre) /\ email <> []
    /\ retrieveEmail (lit "TO:<bob>") = Ok email.
Proof.
  apply (checked_path 4 "TO:<" (lit "TO:<bob>")).
  - apply index_of_None. reflexivity.
  - reflexivity.
Defined.

Lemma no_space_elem w c : no_space w = true -> c ∈ w -> isspace c = false.
Proof.
  induction w as [|a w IH]; [intros _ Hin; inversion Hin|].
  cbn [no_space forallb]. rewrite andb_true_iff, negb_true_iff.
  intros [Ha Hw]. rewrite elem_of_cons. intros [->|Hin]; auto.
Qed.

(** A command line: a word, one space, an argument that ends in an octet
    that is not white space, CR LF.  The word is scanned into [command],
    the line passes [checkCRLF], and [retrieveArgs] finds the argument. *)
Lemma command_line (old cw body : bytes) (c : ascii) :
  cw <> [] -> no_space cw = true -> no_nul cw = true ->
  Z.of_nat (length cw) <= 40 ->
  isspace c = false -> CR ∉ body -> NUL ∉ body ++ [c] ->
  let line := cw ++ SP :: (body ++ [c]) ++ [CR; LF] in
  scan_command old (filled line) = Ok cw
  /\ checkCRLF (filled line) (size_of line) = true
  /\ retrieveArgs (filled line) = Some (body ++ [c]).
Proof.
  intros Hne Hspace Hnul Hlen Hc Hcr Hargnul line.
  pose proof (no_nul_elem _ Hnul) as Hcwnul.
  assert (Hsp : SP ∉ cw).
  { intros Hin. apply (no_space_elem _ _ Hspace) in Hin. discriminate. }
  assert (Hccr : c <> CR) by (intros ->; discriminate).
  assert (Hline : filled line = cw ++ SP :: (body ++ [c]) ++ CR :: [LF; NUL]).
  { unfold filled, line. rewrite <- app_assoc. cbn [app].
    rewrite <- app_assoc. reflexivity. }
  assert (Hargcr : CR ∉ body ++ [c]).
  { rewrite elem_of_app, list_elem_of_singleton. intros [?|?]; auto. }
  split; [|split].
  - unfold scan_command, sscanf_s. rewrite Hline.
    rewrite ArgumentFacts.cstr_app by exact Hcwnul.
    change (cstr (SP :: (body ++ [c]) ++ CR :: [LF; NUL]))
      with (SP :: cstr ((body ++ [c]) ++ CR :: [LF; NUL])).
    rewrite skip_ws_word, scan_word_app by assumption.
    cbn [scan_word]. change (isspace SP) with true. cbv iota.
    rewrite app_nil_r. destruct cw as [|a cw']; [congruence|].
    unfold strcpy. destruct (Z.leb_spec (Z.of_nat (length (a :: cw'))) 40);
      [reflexivity | lia].
  - rewrite checkCRLF_spec. unfold line.
    replace (cw ++ SP :: (body ++ [c]) ++ [CR; LF])
      with ((cw ++ SP :: body) ++ [c; CR; LF])
      by (rewrite <- !app_assoc; reflexivity).
    rewrite well_formed_app, Hc. unfold size_of. rewrite length_app.
    cbn [andb negb]. apply Z.ltb_lt. rewrite length_app.
    cbn [length]. lia.
  - rewrite Hline. apply ArgumentFacts.retrieveArgs_finds; try assumption.
    destruct body; discriminate.
Qed.

Lemma folded_word (w : bytes) (name : string) :
  no_nul (map tolower (lit name)) = true ->
  no_space (map tolower (lit name)) = true ->
  lit name <> [] ->
  map tolower w = map tolower (lit name) ->
  w <> [] /\ no_space w = true /\ no_nul w = true
  /\ length w = length (lit name) /\ strcasecmp w (lit name) = 0.
Proof.
  intros Knul Kspace Kne Hfold. rewrite <- Hfold in Knul, Kspace.
  rewrite no_nul_fold in Knul. rewrite no_space_fold in Kspace.
  split; [|split; [exact Kspace|split; [exact Knul|split]]].
  - intros ->. destruct (lit name); [congruence | discriminate].
  - rewrite <- (length_map tolower w), Hfold, length_map. reflexivity.
  - apply strcasecmp_fold, Hfold.
Qed.

Section Session.

Variable MAX_USERNAME_SIZE : Z.
Variable is_valid_user : bytes -> option bytes -> bool.
Variable domainName : bytes.
Variable mkstemp : nat -> option nat.

Abbreviation handle_line :=
  (Smtpd.handle_line MAX_USERNAME_SIZE is_valid_user domainName mkstemp).

(** X15: after HELO, the line MAIL FROM:<path>, with the two words in
    any mix of cases and a path that is not empty, holds no CR and no
    zero octet and fits [fromEmail], is answered 250 OK; the session
    moves to the MAIL state with exactly that path as sender. *)
Theorem mail_accepted (st : state) (cw kw addr : bytes) :
  received_data st = false -> received_mail st = false ->
  received_rcpt st = false -> received_helo st = true ->
  map tolower cw = map tolower (lit "MAIL") ->
  map tolower kw = map tolower (lit "FROM:<") ->
  addr <> [] -> CR ∉ addr -> NUL ∉ addr ->
  Z.of_nat (length addr) <= MAX_USERNAME_SIZE ->
  let line := cw ++ SP :: (kw ++ addr ++ [">"%char]) ++ [CR; LF] in
  handle_line st (filled line) (size_of line)
  = Ok (Continue
          (mk_state true true false false (rcpt_count st) (data st) addr
             (toEmail st) cw (spool st))
          [send250]).
Proof.
  intros Hdata Hmail Hrcpt Hhelo Hcw Hkw Hne Hcr Hnul Hfits line.
  destruct (folded_word cw "MAIL" eq_refl eq_refl ltac:(discriminate) Hcw)
    as (Hcwne & Hcwsp & Hcwnul & Hcwlen & Hcmd).
  destruct (folded_word kw "FROM:<" eq_refl eq_refl ltac:(discriminate) Hkw)
    as (Hkwne & Hkwsp & Hkwnul & _ & _).
  apply no_nul_elem in Hkwnul.
  destruct (command_line (command st) cw (kw ++ addr) ">" Hcwne Hcwsp Hcwnul)
    as (Hscan & Hcheck & Hargs).
  { rewrite Hcwlen. simpl. lia. }
  { reflexivity. }
  { rewrite elem_of_app. intros [Hin|Hin]; [|contradiction].
    apply (no_space_elem _ _ Hkwsp) in Hin. discriminate. }
  { rewrite !elem_of_app, list_elem_of_singleton.
    intros [[?|?]|?]; try contradiction; discriminate. }
  rewrite <- (app_assoc kw addr) in Hscan, Hcheck, Hargs.
  fold line in Hscan, Hcheck, Hargs.
  destruct (path_round_trip_mail kw addr Hne Hnul Hkw) as [Hsyntax Hemail].
  unfold Smtpd.handle_line. rewrite Hscan. cbn [bind]. rewrite Hcheck.
  cbn [orb set_command received_data received_mail received_rcpt
       received_helo].
  rewrite Hdata, Hmail, Hrcpt, Hhelo. unfold helo_state, is_cmd.
  cbn [set_command command]. settle_cmd Hcmd. cbn [orb].
  rewrite Hargs, Hsyntax, Hemail. cbn [bind].
  rewrite (PopAuthorization.strcpy_fits _ _ Hfits). cbn [in_bounds bind].
  cbn [set_command received_helo received_rcpt received_data rcpt_count data
       toEmail command spool].
  rewrite Hhelo, Hrcpt, Hdata. reflexivity.
Qed.

(** X16: in the MAIL or the RCPT state, the line RCPT TO:<path> (words in any
    mix of cases; path not empty, without CR and zero octet) is settled
    by [is_valid_user] alone.  An unknown path is answered 555 and
    leaves the session as it was.  A known one is copied into the row
    [rcpt_count] of [toEmail], the counter goes up by one, the session
    is in the RCPT state and the reply is 250 OK; when the counter is
    outside 0..29 or the path longer than a row, the copy runs out of
    bounds instead. *)
Theorem rcpt_settled (st : state) (cw kw addr : bytes) :
  received_data st = false ->
  received_mail st = true \/ received_rcpt st = true ->
  map tolower cw = map tolower (lit "RCPT") ->
  map tolower kw = map tolower (lit "TO:<") ->
  addr <> [] -> CR ∉ addr -> NUL ∉ addr ->
  let line := cw ++ SP :: (kw ++ addr ++ [">"%char]) ++ [CR; LF] in
  handle_line st (filled line) (size_of line)
  = if is_valid_user addr None then
      if (rcpt_count st <? 0) || (30 <=? rcpt_count st)
         || (MAX_USERNAME_SIZE <? Z.of_nat (length addr))
      then Fault OutOfBounds
      else Ok (Continue
                 (mk_state (received_helo st) false true false
                    (rcpt_count st + 1) (data st) (fromEmail st)
                    (<[Z.to_nat (rcpt_count st) := addr]> (toEmail st))
                    cw (spool st))
                 [send250])
    else Ok (Continue (set_command st cw) [send555]).
Proof.
  intros Hdata Hphase Hcw Hkw Hne Hcr Hnul line.
  destruct (folded_word cw "RCPT" eq_refl eq_refl ltac:(discriminate) Hcw)
    as (Hcwne & Hcwsp & Hcwnul & Hcwlen & Hcmd).
  destruct (folded_word kw "TO:<" eq_refl eq_refl ltac:(discriminate) Hkw)
    as (Hkwne & Hkwsp & Hkwnul & _ & _).
  apply no_nul_elem in Hkwnul.
  destruct (command_line (command st) cw (kw ++ addr) ">" Hcwne Hcwsp Hcwnul)
    as (Hscan & Hcheck & Hargs).
  { rewrite Hcwlen. simpl. lia. }
  { reflexivity. }
  { rewrite elem_of_app. intros [Hin|Hin]; [|contradiction].
    apply (no_space_elem _ _ Hkwsp) in Hin. discriminate. }
  { rewrite !elem_of_app, list_elem_of_singleton.
    intros [[?|?]|?]; try contradiction; discriminate. }
  rewrite <- (app_assoc kw addr) in Hscan, Hcheck, Hargs.
  fold line in Hscan, Hcheck, Hargs.
  destruct (path_round_trip_rcpt kw addr Hne Hnul Hkw) as [Hsyntax Hemail].
  assert (Hrcpt : forall first : bool,
    (first = false -> received_mail st = false /\ received_rcpt st = true) ->
    rcpt_command MAX_USERNAME_SIZE is_valid_user (set_command st cw)
      (filled line) first
    = if is_valid_user addr None then
        if (rcpt_count st <? 0) || (30 <=? rcpt_count st)
           || (MAX_USERNAME_SIZE <? Z.of_nat (length addr))
        then Fault OutOfBounds
        else Ok (Continue
                   (mk_state (received_helo st) false true false
                      (rcpt_count st + 1) (data st) (fromEmail st)
                      (<[Z.to_nat (rcpt_count st) := addr]> (toEmail st))
                      cw (spool st))
                   [send250])
      else Ok (Continue (set_command st cw) [send555])).
  { intros first Hfirst. unfold rcpt_command.
    rewrite Hargs, Hsyntax, Hemail. cbn [bind].
    destruct (is_valid_user addr None); [|reflexivity].
    unfold store_rcpt. cbn [set_command rcpt_count].
    destruct ((rcpt_count st <? 0) || (30 <=? rcpt_count st)); [reflexivity|].
    cbn [orb]. unfold strcpy.
    destruct (Z.leb_spec (Z.of_nat (length addr)) MAX_USERNAME_SIZE) as [Hle|Hgt].
    - apply Z.ltb_ge in Hle. rewrite Hle. cbn [in_bounds bind].
      destruct first;
        cbn [set_command received_helo received_mail received_rcpt
             received_data rcpt_count data fromEmail toEmail command spool];
        rewrite ?Hdata; [reflexivity|].
      destruct (Hfirst eq_refl) as [-> ->]. reflexivity.
    - apply Z.ltb_lt in Hgt. rewrite Hgt. reflexivity. }
  unfold Smtpd.handle_line. rewrite Hscan. cbn [bind]. rewrite Hcheck.
  cbn [orb set_command received_data received_mail received_rcpt
       received_helo].
  rewrite Hdata. unfold is_cmd. cbn [set_command command].
  settle_cmd Hcmd. cbn [orb].
  destruct (received_mail st) eqn:Hmail.
  - unfold mail_state, is_cmd. cbn [set_command command].
    settle_cmd Hcmd. apply Hrcpt. discriminate.
  - destruct Hphase as [Hphase|Hphase]; [discriminate|]. rewrite Hphase.
    unfold rcpt_state, is_cmd. cbn [set_command command].
    settle_cmd Hcmd. cbn [andb]. apply Hrcpt. intros _.
    split; first [assumption | reflexivity].
Qed.

End Session.

(** The session after HELO, and after a sender was set. *)
Lemma mail_accepted_witness :
  Smtpd.handle_line 64 Fixtures.alice_and_bob [] Fixtures.always
    (mk_state true false false false 0 [] [] (replicate 30 []) []
       (mk_store 0 []))
    (filled (lit "mail From:<a@x>" ++ [CR; LF])) 17
  = Ok (Continue
          (mk_state true true false false 0 [] (lit "a@x") (replicate 30 [])
             (lit "mail") (mk_store 0 []))
          [send250]).
Proof.
  apply (mail_accepted 64 Fixtures.alice_and_bob [] Fixtures.always
           (mk_state true false false false 0 [] [] (replicate 30 []) []
              (mk_store 0 []))
           (lit "mail") (lit "From:<") (lit "a@x")).
  - reflexivity.
  - reflexivity.
  - reflexivity.
  - reflexivity.
  - reflexivity.
  - reflexivity.
  - discriminate.
  - apply index_of_None. reflexivity.
  - apply index_of_None. reflexivity.
  - simpl. lia.
Defined.

Lemma rcpt_settled_witness :
  Smtpd.handle_line 64 Fixtures.alice_and_bob [] Fixtures.always
    (mk_state true true false false 0 [] (lit "a@x") (replicate 30 [])
       (lit "mail") (mk_store 0 []))
    (filled (lit "rcpt to:<bob>" ++ [CR; LF])) 15
  = Ok (Continue
          (mk_state true false true false 1 [] (lit "a@x")
             (<[0%nat := lit "bob"]> (replicate 30 []))
             (lit "rcpt") (mk_store 0 []))
          [send250]).
Proof.
  apply (rcpt_settled 64 Fixtures.alice_and_bob [] Fixtures.always
           (mk_state true true false false 0 [] (lit "a@x") (replicate 30 [])
              (lit "mail") (mk_store 0 []))
           (lit "rcpt") (lit "to:<") (lit "bob")).
  - reflexivity.
  - left. reflexivity.
  - reflexivity.
  - reflexivity.
  - discriminate.
  - apply index_of_None. reflexivity.
  - apply index_of_None. reflexivity.
Defined.

End SmtpPaths.

(** ** SMTP: the greeting and the end of DATA *)

Module SmtpTurns.
Import Libc Outcome Line Smtpd Rules LibcFacts LineFacts CommandFacts.

Section Session.

Variable MAX_USERNAME_SIZE : Z.
Variable is_valid_user : bytes -> option bytes -> bool.
Variable domainName : bytes.
Variable mkstemp : nat -> option nat.

Abbreviation handle_line :=
  (Smtpd.handle_line MAX_USERNAME_SIZE is_valid_user domainName mkstemp).
Abbreviation save_all := (Smtpd.save_all mkstemp).

(** X17: before any HELO, a line that passes [checkCRLF] and whose first
    word is HELO in any mix of cases is answered 250 and the host name,
    with or without an argument after the word, and the session has its
    greeting; when the reply does not fit the 200 octets of
    [initialMessage], the [strcat] runs past its end instead. *)
Theorem helo_accepted (st : state) (reply cw : bytes) (reply_size : Z) :
  received_data st = false -> received_mail st = false ->
  received_rcpt st = false -> received_helo st = false ->
  scan_command (command st) reply = Ok cw ->
  map tolower cw = map tolower (lit "HELO") ->
  checkCRLF reply reply_size = true ->
  handle_line st reply reply_size
  = if Z.of_nat (length domainName) <=? 193
    then Ok (Continue
               (mk_state true false false false (rcpt_count st) (data st)
                  (fromEmail st) (toEmail st) cw (spool st))
               [lit "250 " ++ domainName ++ [CR; LF]])
    else Fault OutOfBounds.
Proof.
  intros Hdata Hmail Hrcpt Hhelo Hscan Hcw Hcheck.
  pose proof (strcasecmp_fold _ _ Hcw) as Hcmd.
  unfold Smtpd.handle_line. rewrite Hscan. cbn [bind]. rewrite Hcheck.
  cbn [orb set_command received_data received_mail received_rcpt
       received_helo].
  rewrite Hdata, Hmail, Hrcpt, Hhelo. unfold initial_state, is_cmd.
  cbn [set_command command]. settle_cmd Hcmd. cbn [orb].
  unfold strcpy. rewrite !length_app.
  cbn [set_command received_data received_mail received_rcpt received_helo
       rcpt_count data fromEmail toEmail command spool].
  rewrite Hdata, Hmail, Hrcpt.
  change (length (lit "250 ")) with 4%nat. change (length [CR; LF]) with 2%nat.
  destruct (Z.leb_spec (Z.of_nat (length domainName)) 193);
    destruct (Z.leb_spec (Z.of_nat (4 + (length domainName + 2))) 199);
    try lia; reflexivity.
Qed.

Lemma save_all_served (rows : list bytes) : forall dat success s,
  success <> -1 ->
  (forall i, (i < length rows)%nat -> mkstemp (mkstemp_calls s + i) <> None) ->
  exists r,
    r <> -1
    /\ save_all rows dat success s
       = (r, mk_store (mkstemp_calls s + length rows)
               (delivered s ++ map (fun row => (row, cstr dat)) rows)).
Proof.
  induction rows as [|row rows IH]; intros dat success s Hok Hall.
  - exists success. split; [exact Hok|]. cbn [Smtpd.save_all length map].
    rewrite Nat.add_0_r, app_nil_r. destruct s; reflexivity.
  - cbn [Smtpd.save_all]. unfold saveEmail.
    pose proof (Hall 0%nat ltac:(simpl; lia)) as H0.
    rewrite Nat.add_0_r in H0.
    destruct (mkstemp (mkstemp_calls s)) as [fd|]; [|congruence].
    destruct (IH dat (Z.of_nat fd)
                (mk_store (S (mkstemp_calls s))
                   (delivered s ++ [(row, cstr dat)])))
      as (r & Hr & Heq).
    { lia. }
    { intros i Hi. cbn [mkstemp_calls].
      replace (S (mkstemp_calls s) + i)%nat with (mkstemp_calls s + S i)%nat
        by lia.
      apply Hall. simpl. lia. }
    exists r. split; [exact Hr|]. rewrite Heq.
    cbn [mkstemp_calls delivered length map]. rewrite <- app_assoc.
    f_equal. f_equal. lia.
Qed.

(** X18: the line that ends DATA, when [mkstemp] succeeds for every
    recipient: [saveEmail] is called once for each of the [rcpt_count]
    recipients, in the order of the rows of [toEmail], and each time
    hands the body up to its first zero octet to [write] and the
    recipient to [save_user_mail] (the code looks at the result of
    neither, and nothing is said here about them); the reply is 250 OK;
    the body is freed, DATA is over and the number of recipients is back
    to 0, the other flags, the sender and the rows being as they
    were. *)
Theorem data_end_delivers (st : state) :
  received_data st = true ->
  0 <= rcpt_count st <= Z.of_nat (length (toEmail st)) ->
  (forall i, (i < Z.to_nat (rcpt_count st))%nat ->
             mkstemp (mkstemp_calls (spool st) + i) <> None) ->
  handle_line st (filled dot_line) 3
  = Ok (Continue
          (mk_state (received_helo st) (received_mail st) (received_rcpt st)
             false 0 [] (fromEmail st) (toEmail st) (lit ".")
             (mk_store
                (mkstemp_calls (spool st) + Z.to_nat (rcpt_count st))
                (delivered (spool st)
                 ++ map (fun row => (row, cstr (data st)))
                      (take (Z.to_nat (rcpt_count st)) (toEmail st)))))
          [send250]).
Proof.
  intros Hdata Hcount Hall. unfold Smtpd.handle_line.
  change (scan_command (command st) (filled dot_line)) with (Ok (lit ".")).
  cbn [bind set_command received_data]. rewrite Hdata.
  change (checkCRLF (filled dot_line) 3) with false.
  change (checkCRLFSimple (filled dot_line) 3) with true.
  cbn [orb andb]. unfold data_state.
  change (strstr_at_start (filled dot_line) (crlf ".") && (3 =? 3)) with true.
  cbv iota. cbn [set_command rcpt_count toEmail data spool].
  set (rows := take (Z.to_nat (rcpt_count st)) (toEmail st)).
  assert (Hlen : length rows = Z.to_nat (rcpt_count st))
    by (unfold rows; rewrite length_take; lia).
  destruct (save_all_served rows (data st) 0 (spool st)) as (r & Hr & Heq).
  { lia. }
  { rewrite Hlen. exact Hall. }
  rewrite Heq, Hlen.
  cbn [received_helo received_mail received_rcpt fromEmail command].
  destruct (Z.eqb_spec r (-1)); [contradiction | reflexivity].
Qed.

End Session.

Lemma helo_accepted_witness :
  Smtpd.handle_line 64 Fixtures.alice_and_bob (lit "mx.example")
    Fixtures.always Fixtures.greeted (filled (lit "helo" ++ [CR; LF])) 6
  = Ok (Continue
          (mk_state true false false false 0 [] [] (replicate 30 [])
             (lit "helo") (mk_store 0 []))
          [lit "250 mx.example" ++ [CR; LF]]).
Proof.
  apply (helo_accepted 64 Fixtures.alice_and_bob (lit "mx.example")
           Fixtures.always Fixtures.greeted (filled (lit "helo" ++ [CR; LF]))
           (lit "helo") 6).
  - reflexivity.
  - reflexivity.
  - reflexivity.
  - reflexivity.
  - reflexivity.
  - reflexivity.
  - reflexivity.
Defined.

Lemma data_end_delivers_witness :
  Smtpd.handle_line 64 Fixtures.alice_and_bob [] Fixtures.always
    (set_data Fixtures.in_data (lit "hello" ++ [CR; LF]))
    (filled dot_line) 3
  = Ok (Continue
          (mk_state true false false false 0 []
             (lit "a@x") (<[0%nat := lit "bob"]> (replicate 30 []))
             (lit ".")
             (mk_store 1 [(lit "bob", lit "hello" ++ [CR; LF])]))
          [send250]).
Proof.
  apply (data_end_delivers 64 Fixtures.alice_and_bob [] Fixtures.always
           (set_data Fixtures.in_data (lit "hello" ++ [CR; LF]))).
  - reflexivity.
  - vm_compute. split; discriminate.
  - intros i _. discriminate.
Defined.

End SmtpTurns.

(** ** POP3: what RETR sends of a file *)

Module PopRetrieve.
Import Libc Outcome Line Popd LibcFacts.

Lemma readEmail_loop_line (l : bytes) : forall acc rest,
  LF ∉ l -> size_of acc + size_of l <= 1023 ->
  readEmail_loop (l ++ LF :: rest) acc
  = let* more := readEmail_loop rest [] in
    Ok (cstr (acc ++ l ++ [LF]) :: more).
Proof.
  unfold size_of.
  induction l as [|c l IH]; intros acc rest Hno Hfit; cbn [app readEmail_loop].
  - unfold MAX_LINE_LENGTH, size_of.
    destruct (Z.ltb_spec 1024 (Z.of_nat (length acc))); [simpl in Hfit; lia|].
    rewrite Ascii.eqb_refl.
    destruct (Z.ltb_spec 1024 (Z.of_nat (length acc) + 1));
      [simpl in Hfit; lia | reflexivity].
  - apply not_elem_of_cons in Hno as [Hc Hl].
    unfold MAX_LINE_LENGTH, size_of. simpl in Hfit.
    destruct (Z.ltb_spec 1024 (Z.of_nat (length acc))); [lia|].
    destruct (Ascii.eqb_spec c LF) as [->|_]; [congruence|].
    rewrite IH; [|exact Hl | rewrite length_app; simpl; lia].
    rewrite <- app_assoc. reflexivity.
Qed.

Lemma readEmail_loop_long (l : bytes) : forall acc rest,
  LF ∉ l -> 1024 <= size_of acc + size_of l ->
  readEmail_loop (l ++ LF :: rest) acc = Fault OutOfBounds.
Proof.
  unfold size_of.
  induction l as [|c l IH]; intros acc rest Hno Hlong;
    cbn [app readEmail_loop]; unfold MAX_LINE_LENGTH, size_of.
  - destruct (Z.ltb_spec 1024 (Z.of_nat (length acc))); [reflexivity|].
    rewrite Ascii.eqb_refl.
    destruct (Z.ltb_spec 1024 (Z.of_nat (length acc) + 1));
      [reflexivity | simpl in Hlong; lia].
  - apply not_elem_of_cons in Hno as [Hc Hl].
    destruct (Z.ltb_spec 1024 (Z.of_nat (length acc))); [reflexivity|].
    destruct (Ascii.eqb_spec c LF) as [->|_]; [congruence|].
    apply IH; [exact Hl | rewrite length_app; simpl in *; lia].
Qed.

Lemma readEmail_loop_rest (t : bytes) : forall acc,
  LF ∉ t -> size_of acc + size_of t <= 1025 ->
  readEmail_loop t acc = Ok [].
Proof.
  unfold size_of.
  induction t as [|c t IH]; intros acc Hno Hfit; cbn [readEmail_loop];
    [reflexivity|].
  apply not_elem_of_cons in Hno as [Hc Ht].
  unfold MAX_LINE_LENGTH, size_of. simpl in Hfit.
  destruct (Z.ltb_spec 1024 (Z.of_nat (length acc))); [lia|].
  destruct (Ascii.eqb_spec c LF) as [->|_]; [congruence|].
  apply IH; [exact Ht | rewrite length_app; simpl; lia].
Qed.

(** The lines of a file: each without LF and of at most 1023 octets
    before its LF. *)
Lemma readEmail_loop_lines (ls : list bytes) (rest : bytes) :
  Forall (fun l => (LF ∉ l) /\ size_of l <= 1023) ls ->
  readEmail_loop (flat_map (fun l => l ++ [LF]) ls ++ rest) []
  = let* more := readEmail_loop rest [] in
    Ok (map (fun l => cstr (l ++ [LF])) ls ++ more).
Proof.
  induction 1 as [|l ls [Hno Hfit] _ IH]; cbn [flat_map map app].
  - destruct (readEmail_loop rest []); reflexivity.
  - rewrite <- !app_assoc. cbn [app].
    rewrite readEmail_loop_line; [|exact Hno | unfold size_of in *; simpl; lia].
    rewrite IH. cbn [app].
    destruct (readEmail_loop rest []); reflexivity.
Qed.

Section Session.

Variable open_mail : User.mail_item -> option bytes.

Abbreviation readEmail := (Popd.readEmail open_mail).

(** X19: RETR of a file made of lines of at most 1023 octets before
    their LF: after +OK each line goes out in a send of its own, cut at
    its first zero octet when it has one, and then the closing dot line.
    Octets after the last LF of the file (at most 1025 of them) are not
    sent, and a line that starts with a dot goes out as it is. *)
Theorem readEmail_sends_lines (mail : User.mail_item) (ls : list bytes)
    (rest : bytes) :
  open_mail mail = Some (flat_map (fun l => l ++ [LF]) ls ++ rest) ->
  Forall (fun l => (LF ∉ l) /\ size_of l <= 1023) ls ->
  LF ∉ rest -> size_of rest <= 1025 ->
  readEmail mail
  = Ok (sendPositive :: map (fun l => cstr (l ++ [LF])) ls ++ [endOfList]).
Proof.
  intros Hopen Hls Hno Hfit. unfold Popd.readEmail. rewrite Hopen.
  rewrite (readEmail_loop_lines ls rest Hls).
  rewrite (readEmail_loop_rest rest [] Hno) by (unfold size_of in *; simpl; lia).
  cbn [bind]. rewrite app_nil_r. reflexivity.
Qed.

(** X20: RETR of a file in which, after lines that fit, comes a line of
    1024 octets or more before its LF: [readEmail] writes past the end
    of [content]. *)
Theorem readEmail_long_line_overflows (mail : User.mail_item)
    (ls : list bytes) (l rest : bytes) :
  open_mail mail
  = Some (flat_map (fun l => l ++ [LF]) ls ++ l ++ LF :: rest) ->
  Forall (fun l => (LF ∉ l) /\ size_of l <= 1023) ls ->
  LF ∉ l -> 1024 <= size_of l ->
  readEmail mail = Fault OutOfBounds.
Proof.
  intros Hopen Hls Hno Hlong. unfold Popd.readEmail. rewrite Hopen.
  rewrite (readEmail_loop_lines ls _ Hls).
  rewrite (readEmail_loop_long l [] rest Hno)
    by (unfold size_of in *; simpl; lia).
  reflexivity.
Qed.

End Session.

Lemma readEmail_sends_lines_witness :
  Popd.readEmail
    (fun _ => Some (lit "Subject: x" ++ LF :: "."%char :: LF :: lit "bye"))
    (User.mk_item (lit "1.mail") 16 false)
  = Ok [sendPositive; lit "Subject: x" ++ [LF]; ["."%char; LF]; endOfList].
Proof.
  apply (readEmail_sends_lines
           (fun _ => Some (lit "Subject: x" ++ LF :: "."%char :: LF :: lit "bye"))
           (User.mk_item (lit "1.mail") 16 false)
           [lit "Subject: x"; lit "."] (lit "bye")).
  - reflexivity.
  - repeat constructor; try (apply index_of_None; reflexivity);
      vm_compute; discriminate.
  - apply index_of_None. reflexivity.
  - vm_compute. discriminate.
Defined.

Lemma readEmail_long_line_overflows_witness :
  Popd.readEmail
    (fun _ => Some (lit "a" ++ LF :: replicate 1024 "b"%char ++ [LF]))
    (User.mk_item (lit "1.mail") 1027 false)
  = Fault OutOfBounds.
Proof.
  apply (readEmail_long_line_overflows
           (fun _ => Some (lit "a" ++ LF :: replicate 1024 "b"%char ++ [LF]))
           (User.mk_item (lit "1.mail") 1027 false)
           [lit "a"] (replicate 1024 "b"%char) []).
  - reflexivity.
  - repeat constructor; try (apply index_of_None; reflexivity);
      vm_compute; discriminate.
  - apply index_of_None. vm_compute. reflexivity.
  - vm_compute. discriminate.
Defined.

End PopRetrieve.

(** ** POP3: logging in *)

Module PopLogin.
Import Libc Outcome Line User Popd Rules Invariants.
Import LibcFacts LineFacts CommandFacts.

(** An argument that may end a well-formed line ends in an octet that
    is not white space. *)
Lemma arg_shape (a : bytes) :
  well_formed (a ++ [CR; LF]) = true ->
  exists body c, a = body ++ [c] /\ isspace c = false.
Proof.
  destruct a as [|x a] using rev_ind; [discriminate|]. clear IHa.
  rewrite <- app_assoc. cbn [app]. rewrite well_formed_app.
  rewrite !Ascii.eqb_refl. cbn [andb]. rewrite negb_true_iff.
  intros Hx. exists a, x. split; [reflexivity | exact Hx].
Qed.

(** What the turn of a command with an argument finds on its line. *)
Lemma argument_line (old cw arg : bytes) (name : string) :
  no_nul (map tolower (lit name)) = true ->
  no_space (map tolower (lit name)) = true ->
  length (lit name) = 4%nat ->
  map tolower cw = map tolower (lit name) ->
  well_formed (arg ++ [CR; LF]) = true -> CR ∉ arg -> NUL ∉ arg ->
  let line := cw ++ SP :: arg ++ [CR; LF] in
  scan_command old (filled line) = Ok cw
  /\ checkCRLF (filled line) (size_of line) = true
  /\ retrieveArgs (filled line) = Some arg
  /\ (size_of line =? 6) = false
  /\ strcasecmp cw (lit name) = 0.
Proof.
  intros Knul Kspace Klen Hcw Hwf Hcr Hnul line.
  destruct (SmtpPaths.folded_word cw name Knul Kspace
              ltac:(intros E; rewrite E in Klen; discriminate) Hcw)
    as (Hcwne & Hcwsp & Hcwnul & Hcwlen & Hcmd).
  destruct (arg_shape arg Hwf) as (body & c & -> & Hc).
  destruct (SmtpPaths.command_line old cw body c Hcwne Hcwsp Hcwnul)
    as (Hscan & Hcheck & Hargs); try assumption.
  { rewrite Hcwlen, Klen. lia. }
  { intros Hin. apply Hcr. apply elem_of_app. left. exact Hin. }
  repeat split; try assumption.
  apply Z.eqb_neq. unfold line, size_of.
  rewrite !length_app. cbn [length]. rewrite !length_app. cbn [length]. lia.
Qed.

Section Session.

Variable MAX_USERNAME_SIZE : Z.
Variable is_valid_user : bytes -> option bytes -> bool.
Variable load_user_mail : bytes -> mail_list.
Variable open_mail : mail_item -> option bytes.

Abbreviation handle_line :=
  (Popd.handle_line MAX_USERNAME_SIZE is_valid_user load_user_mail open_mail).

(** X21: logging in.  In the AUTHORIZATION state the line USER name, for
    a name the store knows, is answered +OK and leaves the name in
    [username]; the line PASS word that follows, for the word the store
    accepts with that name, is answered +OK and enters the TRANSACTION
    state with the mailbox loaded for the name.  The two command words
    may come in any mix of cases; name and word fit their arrays, hold
    no CR and no zero octet, and end in an octet that is not white
    space, and may hold spaces otherwise. *)
Theorem login (st : state) (cu cp name pw : bytes) :
  authorization st = true ->
  map tolower cu = map tolower (lit "USER") ->
  map tolower cp = map tolower (lit "PASS") ->
  well_formed (name ++ [CR; LF]) = true -> CR ∉ name -> NUL ∉ name ->
  well_formed (pw ++ [CR; LF]) = true -> CR ∉ pw -> NUL ∉ pw ->
  Z.of_nat (length name) <= MAX_USERNAME_SIZE ->
  Z.of_nat (length pw) <= MAX_USERNAME_SIZE ->
  is_valid_user name None = true ->
  is_valid_user name (Some pw) = true ->
  let user_line := cu ++ SP :: name ++ [CR; LF] in
  let pass_line := cp ++ SP :: pw ++ [CR; LF] in
  let st1 :=
    mk_state true (transaction st) true cu name (password st) (mailList st)
      (mailCount st) in
  handle_line st (filled user_line) (size_of user_line)
  = Ok (Continue st1 [sendPositive])
  /\ handle_line st1 (filled pass_line) (size_of pass_line)
     = Ok (Continue
             (mk_state false true true cp name pw (load_user_mail name)
                (to_unsigned (get_mail_count (load_user_mail name))))
             [sendPositive]).
Proof.
  intros Hauth Hcu Hcp Hnwf Hncr Hnnul Hpwf Hpcr Hpnul Hnfit Hpfit Hknown Hok
    user_line pass_line st1.
  destruct (argument_line (command st) cu name "USER" eq_refl eq_refl eq_refl
              Hcu Hnwf Hncr Hnnul)
    as (Hscan & Hcheck & Hargs & Hsize & Hcmd).
  destruct (argument_line (command st1) cp pw "PASS" eq_refl eq_refl eq_refl
              Hcp Hpwf Hpcr Hpnul)
    as (Hscan2 & Hcheck2 & Hargs2 & Hsize2 & Hcmd2).
  fold user_line in Hscan, Hcheck, Hargs, Hsize.
  fold pass_line in Hscan2, Hcheck2, Hargs2, Hsize2.
  split.
  - unfold Popd.handle_line. rewrite Hscan. cbn [bind]. rewrite Hcheck.
    cbn [set_command authorization]. rewrite Hauth.
    unfold authorization_state, is_cmd. cbn [set_command command].
    settle_cmd Hcmd. rewrite Hsize, Hargs. cbn [negb non_null bind].
    rewrite (PopAuthorization.strcpy_fits _ _ Hnfit). cbn [in_bounds bind].
    rewrite Hknown. unfold st1, set_accepted_user, set_username.
    cbn [set_command authorization transaction accepted_user command username
         password mailList mailCount].
    rewrite ?Hauth. reflexivity.
  - unfold Popd.handle_line. rewrite Hscan2. cbn [bind]. rewrite Hcheck2.
    unfold st1 at 1. cbn [set_command authorization].
    unfold authorization_state, is_cmd. cbn [set_command command].
    settle_cmd Hcmd2. rewrite Hsize2, Hargs2.
    unfold st1. cbn [accepted_user andb negb non_null bind].
    rewrite (PopAuthorization.strcpy_fits _ _ Hpfit). cbn [in_bounds bind].
    unfold set_password.
    cbn [set_command authorization transaction accepted_user command username
         password mailList mailCount].
    rewrite Hok. reflexivity.
Qed.

End Session.

Lemma login_witness :
  Popd.handle_line 64 Fixtures.alice_only Fixtures.alice_mail Fixtures.no_file
    Fixtures.fresh (filled (lit "user alice" ++ [CR; LF])) 12
  = Ok (Continue
          (mk_state true false true (lit "user") (lit "alice") [] [] 0)
          [sendPositive])
  /\ Popd.handle_line 64 Fixtures.alice_only Fixtures.alice_mail
       Fixtures.no_file
       (mk_state true false true (lit "user") (lit "alice") [] [] 0)
       (filled (lit "Pass pw" ++ [CR; LF])) 9
     = Ok (Continue
             (mk_state false true true (lit "Pass") (lit "alice") (lit "pw")
                (Fixtures.alice_mail (lit "alice"))
                (to_unsigned
                   (get_mail_count (Fixtures.alice_mail (lit "alice")))))
             [sendPositive]).
Proof.
  apply (login 64 Fixtures.alice_only Fixtures.alice_mail Fixtures.no_file
           Fixtures.fresh (lit "user") (lit "Pass") (lit "alice") (lit "pw")).
  - reflexivity.
  - reflexivity.
  - reflexivity.
  - reflexivity.
  - apply index_of_None. reflexivity.
  - apply index_of_None. reflexivity.
  - reflexivity.
  - apply index_of_None. reflexivity.
  - apply index_of_None. reflexivity.
  - simpl. lia.
  - simpl. lia.
  - reflexivity.
  - reflexivity.
Defined.

End PopLogin.

(** ** The loop of [handle_client] ends *)

Module SessionLoop.
Import Libc Outcome Line SocketBuffer Server Rules.
Import LibcFacts SocketBufferFacts.

Lemma line_rv_lower max s failing : -1 <= line_rv max s failing.
Proof.
  unfold line_rv. destruct (index_of LF (take max s)); [lia|].
  destruct (max <=? length s)%nat; [lia|]. destruct failing; lia.
Qed.

(** A call of [sb_read_line] returns, keeps the buffer within its
    capacity, and when it returns octets there are that many fewer
    buffered and to come. *)
Lemma read_step (sb : socket_buffer) (sock : socket) :
  (avail_data sb <= max_bytes sb)%nat ->
  exists r,
    sb_read_line sb sock = Some r
    /\ -1 <= rv r
    /\ (avail_data (sb_after r) <= max_bytes (sb_after r))%nat
    /\ (0 < rv r ->
        (length (buf (sb_after r) ++ pending (sock_after r))
         < length (buf sb ++ pending sock))%nat).
Proof.
  intros Hle. unfold sb_read_line.
  destruct (read_loop_spec sock (max_bytes sb - avail_data sb) sb Hle)
    as (r & Hr & Hrv & Hout & Hmax & Havail); [lia|].
  exists r. split; [exact Hr|]. split; [rewrite Hrv; apply line_rv_lower|].
  split; [rewrite Hmax; exact Havail|]. intros Hpos.
  destruct (ReaderStream.read_loop_keeps _ _ _ _ Hr ltac:(lia)) as [Hkeep _].
  pose proof (line_rv_bounds (max_bytes sb) (buf sb ++ pending sock)
                (fails sock)) as [_ Hup].
  rewrite <- Hrv in Hup. rewrite (Hout ltac:(lia)) in Hkeep.
  rewrite take_app_le in Hkeep by (rewrite length_take; lia).
  rewrite take_take, Nat.min_id in Hkeep.
  apply (f_equal length) in Hkeep.
  rewrite length_app, length_take in Hkeep. lia.
Qed.

Lemma send_each_conn (msgs : list bytes) : forall c status,
  sock (send_each c msgs status).2 = sock c
  /\ buffer (send_each c msgs status).2 = buffer c.
Proof.
  induction msgs as [|m msgs IH]; intros c status; cbn [send_each];
    [split; reflexivity|].
  unfold send_all.
  destruct (writes_left c) as [[|n]|];
    match goal with
    | |- context [send_each ?c' msgs ?r] =>
        destruct (IH c' r) as [-> ->]; split; reflexivity
    end.
Qed.

Section Loop.

Context {S : Type}.
Variable handle_line : S -> bytes -> Z -> result (turn S).

Lemma client_loop_returns : forall fuel st c status,
  (avail_data (buffer c) <= max_bytes (buffer c))%nat ->
  (length (buf (buffer c) ++ pending (sock c)) < fuel)%nat ->
  exists res, client_loop handle_line fuel st c status = Some res.
Proof.
  induction fuel as [|fuel IH]; intros st c status Hle Hfuel; [lia|].
  cbn [client_loop].
  destruct (read_step (buffer c) (sock c) Hle)
    as (r & -> & Hlow & Hle' & Hless).
  destruct ((rv r =? 0) || (rv r =? -1) || (status =? -1)) eqn:Hbreak;
    [eauto|].
  apply orb_false_iff in Hbreak as [Hbreak _].
  apply orb_false_iff in Hbreak as [H0 H1].
  apply Z.eqb_neq in H0, H1.
  destruct (handle_line st (out r) (rv r)) as [[st' msgs|st' msgs]|f];
    [| |eauto].
  - match goal with
    | |- context [send_each ?c0 msgs status] =>
        pose proof (send_each_conn msgs c0 status) as [Hsock Hbuf];
        destruct (send_each c0 msgs status) as [z c']
    end.
    cbn [snd sock buffer] in Hsock, Hbuf.
    destruct (z =? -1); [eauto|].
    apply IH; rewrite ?Hsock, ?Hbuf; [exact Hle'|].
    specialize (Hless ltac:(lia)). lia.
  - match goal with
    | |- context [send_each ?c0 msgs status] =>
        destruct (send_each c0 msgs status) as [z c']
    end.
    eauto.
Qed.

Lemma client_loop_more : forall fuel st c status res,
  client_loop handle_line fuel st c status = Some res ->
  forall fuel', (fuel <= fuel')%nat ->
  client_loop handle_line fuel' st c status = Some res.
Proof.
  induction fuel as [|fuel IH]; intros st c status res Hrun fuel' Hge;
    [discriminate|].
  destruct fuel' as [|fuel']; [lia|]. cbn [client_loop] in Hrun |- *.
  destruct (sb_read_line (buffer c) (sock c)) as [r|]; [|discriminate].
  destruct ((rv r =? 0) || (rv r =? -1) || (status =? -1)); [exact Hrun|].
  destruct (handle_line st (out r) (rv r)) as [[st' msgs|st' msgs]|f];
    try exact Hrun.
  match goal with
  | |- context [send_each ?c0 msgs status] =>
      destruct (send_each c0 msgs status) as [z c']
  end.
  destruct (z =? -1); [exact Hrun|]. apply (IH _ _ _ _ Hrun). lia.
Qed.

(** X22: the loop of [handle_client] ends, whatever the handler of a
    line does: on a peer that closes or fails after finitely many
    octets, a run makes at most one turn for each octet the peer sends
    and one more, and ends with one and the same outcome for every bound
    above that number. *)
Theorem handle_client_ends (welcome : bytes) (st : S) (peer : socket)
    (writes : option nat) :
  exists res,
    forall fuel, (length (pending peer) < fuel)%nat ->
    handle_client handle_line fuel welcome st peer writes = Some res.
Proof.
  unfold handle_client.
  set (c0 := mk_conn peer (sb_create (Z.to_nat MAX_LINE_LENGTH)) [] writes).
  assert (Hconn : sock (send_all c0 welcome).2 = peer
                  /\ buffer (send_all c0 welcome).2
                     = sb_create (Z.to_nat MAX_LINE_LENGTH)).
  { unfold send_all, c0. cbn [writes_left].
    destruct writes as [[|n]|]; split; reflexivity. }
  destruct (send_all c0 welcome) as [status c]. cbn [snd] in Hconn.
  destruct Hconn as [Hsock Hbuf].
  destruct (client_loop_returns (Datatypes.S (length (pending peer))) st c
              status) as [res Hres].
  - rewrite Hbuf. cbn. lia.
  - rewrite Hbuf, Hsock. cbn [sb_create buf app]. lia.
  - exists res. intros fuel Hfuel.
    apply (client_loop_more _ _ _ _ _ Hres). lia.
Qed.

(** X23: once a send has failed, the loop reads one more line, hands it
    to no handler, and ends: the session state and what went out on the
    wire stay as they were. *)
Theorem failed_send_ends_loop (fuel : nat) (st : S) (c : conn) :
  (avail_data (buffer c) <= max_bytes (buffer c))%nat ->
  exists r,
    sb_read_line (buffer c) (sock c) = Some r
    /\ client_loop handle_line (Datatypes.S fuel) st c (-1)
       = Some (Ok (st, mk_conn (sock_after r) (sb_after r) (wire c)
                         (writes_left c))).
Proof.
  intros Hle.
  destruct (read_step (buffer c) (sock c) Hle) as (r & Hr & _).
  exists r. split; [exact Hr|]. cbn [client_loop]. rewrite Hr.
  change (-1 =? -1) with true. rewrite !orb_true_r. reflexivity.
Qed.

End Loop.

Lemma failed_send_ends_loop_witness :
  exists r,
    sb_read_line (sb_create 1024) (lines ["QUIT"%string]) = Some r
    /\ client_loop
         (Popd.handle_line 64 Fixtures.alice_only Fixtures.alice_mail
            Fixtures.no_file)
         1 Fixtures.fresh
         (mk_conn (lines ["QUIT"%string]) (sb_create 1024) [] (Some 0%nat)) (-1)
       = Some (Ok (Fixtures.fresh,
                   mk_conn (sock_after r) (sb_after r) [] (Some 0%nat))).
Proof.
  apply (failed_send_ends_loop
           (Popd.handle_line 64 Fixtures.alice_only Fixtures.alice_mail
              Fixtures.no_file)
           0 Fixtures.fresh
           (mk_conn (lines ["QUIT"%string]) (sb_create 1024) [] (Some 0%nat))).
  cbn. lia.
Defined.

End SessionLoop.

(** ** smtpd.c: [uppercase] *)

Module Uppercase.
Import Libc Smtpd LibcFacts.

Lemma tolower_toupper c : tolower (toupper c) = tolower c.
Proof. destruct c as [[] [] [] [] [] [] [] []]; reflexivity. Qed.

Lemma toupper_toupper c : toupper (toupper c) = toupper c.
Proof. destruct c as [[] [] [] [] [] [] [] []]; reflexivity. Qed.

Lemma toupper_NUL c : toupper c = NUL <-> c = NUL.
Proof.
  split; [|intros ->; reflexivity].
  destruct c as [[] [] [] [] [] [] [] []]; intros H; try reflexivity;
    discriminate H.
Qed.

(** X24: [uppercase] changes no octet from the first zero octet on and
    keeps the length of the string and of the buffer; the result
    compares equal to the original under [strcasecmp]; and a second pass
    changes nothing more. *)
Theorem uppercase_folds (temp : bytes) :
  length (uppercase temp) = length temp
  /\ strlen (uppercase temp) = strlen temp
  /\ drop (length (cstr temp)) (uppercase temp)
     = drop (length (cstr temp)) temp
  /\ strcasecmp (uppercase temp) temp = 0
  /\ uppercase (uppercase temp) = uppercase temp.
Proof.
  unfold strlen.
  induction temp as [|c rest (IHlen & IHstr & IHdrop & IHcmp & IHidem)];
    [repeat split; reflexivity|].
  cbn [uppercase cstr].
  destruct (Ascii.eqb_spec c NUL) as [->|Hc].
  - repeat split; reflexivity.
  - cbn [length cstr drop strcasecmp uppercase].
    destruct (Ascii.eqb_spec (toupper c) NUL) as [Hup|_];
      [apply (proj1 (toupper_NUL c)) in Hup; contradiction|].
    rewrite tolower_toupper, Z.eqb_refl, toupper_toupper, IHidem.
    cbn [length]. repeat split; try congruence; lia.
Qed.

End Uppercase.
